(** * mvTCR: sequence codec, mixture-of-experts forward pass, losses and
      the kNN reporting adapter

    A shallow embedding of

    - [tcr_embedding/utils.py] ([aa_encoding]),
    - [tcr_embedding/models/mixture_modules/moe.py]
      ([MoEModelTorch.forward], [get_latent_from_z],
       [MoEModel.calculate_loss], [MoEModel.calculate_kld_loss]),
    - [tcr_embedding/models/optimization/knn_prediction.py]
      ([report_knn_prediction]).

    Conventions.  Python exceptions are values of [exn]; code that mutates
    an object runs in a state-and-exception monad whose final state is the
    object as the exception (if any) left it.  Real-valued tensor entries
    and losses are exact rationals ([Qc]); rounding is not part of the
    model.  Characters are [ascii], ordered by code point. *)

From Stdlib Require Import ZArith QArith Qcanon String Ascii List Lia.
From stdpp Require Import gmap strings list sorting.

Open Scope Z_scope.

(** ** Python exceptions and outcomes *)

Inductive exn : Type :=
  | AssertionError (msg : string)
  | KeyError (key : string)
  | TypeError
  | ValueError
  | IndexError
  | OutsideModel.

Inductive outcome (A : Type) : Type :=
  | Returns (a : A)
  | Raises (e : exn).
Arguments Returns {A} a.
Arguments Raises {A} e.

Global Instance outcome_ret : MRet outcome := fun _ a => Returns a.
Global Instance outcome_bind : MBind outcome := fun _ _ f m =>
  match m with
  | Returns a => f a
  | Raises e => Raises e
  end.

(** ** Characters and strings *)

Module PyStr.

(** Python compares one-character strings by code point. *)
Definition char_le (a b : ascii) : Prop := (N_of_ascii a <= N_of_ascii b)%N.

Global Instance char_le_dec a b : Decision (char_le a b).
Proof. unfold char_le. apply _. Defined.

(** [len(s)] *)
Definition len (s : string) : Z := Z.of_nat (String.length s).

Fixpoint fill (n : nat) (c : ascii) : string :=
  match n with
  | O => EmptyString
  | S n' => String c (fill n' c)
  end.

(** [s.ljust(width, c)]: [s] followed by as many [c] as are needed to
    reach [width]; a string that is already that long is returned as it
    is (never truncated). *)
Definition ljust (width : Z) (c : ascii) (s : string) : string :=
  s +:+ fill (Z.to_nat (width - len s)) c.

(** ['<' + s + '>'] *)
Definition wrap (s : string) : string := "<" +:+ s +:+ ">".

(** [list(s)] *)
Definition chars (s : string) : list ascii := list_ascii_of_string s.

End PyStr.

(** ** The annotated-data container, as far as [aa_encoding] touches it *)

Module AnnData.

(** A column of [adata.obs]. *)
Inductive column : Type :=
  | ColStr (xs : list string)             (* Python strings *)
  | ColInt (xs : list Z)                  (* integers *)
  | ColLabels (xs : list (list Z))        (* one 1-D integer array per row *)
  | ColOneHot (xs : list (list (list Qc))). (* one 2-D float array per row *)

(** An entry of [adata.obsm]: the result of [np.stack]. *)
Inductive ndarray : Type :=
  | ArrLabels (xs : list (list Z))
  | ArrOneHot (xs : list (list (list Qc))).

(** [aa_to_id]: a dict from one-character strings to ids. *)
Abbreviation vocab := (gmap ascii Z).

Record t : Type := mk {
  obs : gmap string column;
  obsm : gmap string ndarray;
  uns : gmap string vocab
}.

Definition set_obs (k : string) (c : column) (a : t) : t :=
  mk (<[k := c]> (obs a)) (obsm a) (uns a).
Definition set_obsm (k : string) (x : ndarray) (a : t) : t :=
  mk (obs a) (<[k := x]> (obsm a)) (uns a).
Definition set_uns (k : string) (v : vocab) (a : t) : t :=
  mk (obs a) (obsm a) (<[k := v]> (uns a)).

End AnnData.

(** ** State-and-exception monad over the container *)

Definition M (A : Type) : Type := AnnData.t -> outcome A * AnnData.t.

Global Instance M_ret : MRet M := fun _ a s => (Returns a, s).
Global Instance M_bind : MBind M := fun _ _ f m s =>
  match m s with
  | (Returns a, s') => f a s'
  | (Raises e, s') => (Raises e, s')
  end.

Definition raise {A} (e : exn) : M A := fun s => (Raises e, s).
Definition lift {A} (o : outcome A) : M A := fun s => (o, s).
Definition modify (f : AnnData.t -> AnnData.t) : M unit :=
  fun s => (Returns tt, f s).

(** ** [tcr_embedding/utils.py] *)

Module Utils.
Import PyStr AnnData.

(** The [pad] argument: "bool or int value".  [type(pad) is int] holds
    for [PadInt] only ([type(True)] is [bool]). *)
Inductive pad_arg : Type :=
  | PadInt (n : Z)
  | PadBool (b : bool).

(** [adata.obs[read_col]] followed by [.astype('str')] or [.str]: a
    missing column is a [KeyError]; a column of strings is read as it is.
    What pandas makes of a column of other values is not modelled. *)
Definition read_str (read_col : string) : M (list string) :=
  fun a =>
    match obs a !! read_col with
    | None => (Raises (KeyError read_col), a)
    | Some (ColStr xs) => (Returns xs, a)
    | Some _ => (Raises OutsideModel, a)
    end.

(** [Series.max()] of the lengths; an empty column has no maximum
    (pandas answers NaN, which [ljust] rejects as a width). *)
Definition series_max (xs : list Z) : outcome Z :=
  match xs with
  | [] => Raises TypeError
  | x :: xs' => Returns (foldl Z.max x xs')
  end.

(** Lines 34-40: the padded column [sequence_col]. *)
Definition sequence_col (read_col : string) (pad : pad_arg)
  : M (list string) :=
  match pad with
  | PadInt n =>
      col ← read_str read_col;
      mret (map (ljust n "_") col)
  | PadBool true =>
      col ← read_str read_col;
      pad_len ← lift (series_max (map len col));
      mret (map (ljust pad_len "_") col)
  | PadBool false =>
      read_str read_col
  end.

(** [sorted(set([x for sublist in aa_tokens for x in sublist]))]: the set
    is a [gset], whose enumeration order is whatever [elements] gives. *)
Definition unique_aa_tokens (aa_tokens : list (list ascii)) : list ascii :=
  merge_sort char_le (elements (list_to_set (concat aa_tokens) : gset ascii)).

(** [{aa: id_ for id_, aa in enumerate(unique_aa_tokens)}] *)
Definition enumerate_vocab (unique : list ascii) : vocab :=
  foldl (fun m '(id_, aa) => <[aa := id_]> m) ∅
        (imap (fun i aa => (Z.of_nat i, aa)) unique).

(** [aa_to_id[token]] *)
Definition vocab_get (aa_to_id : vocab) (token : ascii) : outcome Z :=
  match aa_to_id !! token with
  | Some id_ => Returns id_
  | None => Raises (KeyError (String token EmptyString))
  end.

(** [[f(x) for x in xs]] where [f] may raise. *)
Fixpoint list_comp {A B} (f : A -> outcome B) (xs : list A)
  : outcome (list B) :=
  match xs with
  | [] => Returns []
  | x :: xs' =>
      match f x with
      | Raises e => Raises e
      | Returns y =>
          match list_comp f xs' with
          | Raises e => Raises e
          | Returns ys => Returns (y :: ys)
          end
      end
  end.

(** [x[token_id] = 1.0] on a numpy row [x]: indices [-len(x) .. len(x)-1]
    are accepted, the negative ones counting from the end. *)
Definition np_setitem (x : list Qc) (token_id : Z) (v : Qc)
  : outcome (list Qc) :=
  let n := Z.of_nat (length x) in
  if (0 <=? token_id) && (token_id <? n) then
    Returns (<[Z.to_nat token_id := v]> x)
  else if (- n <=? token_id) && (token_id <? 0) then
    Returns (<[Z.to_nat (token_id + n) := v]> x)
  else Raises IndexError.

(** Lines 55-58 for one sequence: a zero matrix with one row per token
    and [len(aa_to_id)] columns, then a one at each token's id. *)
Definition one_hot_seq (width : nat) (token_id_seq : list Z)
  : outcome (list (list Qc)) :=
  list_comp (fun token_id => np_setitem (replicate width 0%Qc) token_id 1%Qc)
            token_id_seq.

(** [np.stack]: at least one array, all of one shape.  The arrays here
    are rows (or matrices of a common width), so the shape is the number
    of entries. *)
Definition np_stack {A} (xs : list (list A)) : outcome (list (list A)) :=
  match xs with
  | [] => Raises ValueError
  | x :: xs' =>
      if forallb (fun y => Nat.eqb (length y) (length x)) xs'
      then Returns xs else Raises ValueError
  end.

(** [if length_col:] *)
Definition truthy (c : option string) : option string :=
  match c with
  | Some EmptyString => None
  | other => other
  end.

Definition is_None {A} (x : option A) : bool :=
  match x with None => true | Some _ => false end.

(** Lines 22-31: the check of the output columns, the sentinels, the
    lengths.  Returns [pad] as the following lines see it. *)
Definition prepare (read_col : string)
    (ohe_col label_col length_col : option string)
    (pad : pad_arg) (start_end_symbol : bool) : M pad_arg :=
  (if is_None label_col && is_None ohe_col then
     raise (AssertionError
              "Specify at least one column to write: ohe_col or label_col")
   else mret tt);;
  pad ← (if start_end_symbol then
           col ← read_str read_col;
           modify (set_obs read_col (ColStr (map wrap col)));;
           mret (match pad with PadInt n => PadInt (n + 2) | _ => pad end)
         else mret pad);
  match truthy length_col with
  | Some lc =>
      col ← read_str read_col;
      modify (set_obs lc (ColInt (map len col)))
  | None => mret tt
  end;;
  mret pad.

(** Lines 42-68: tokens, vocabulary, ids, and the output columns. *)
Definition write_encoding (ohe_col label_col : option string)
    (aa_to_id : option vocab) (sequence_col : list string) : M unit :=
  (* tokenize each character *)
  let aa_tokens := map chars sequence_col in
  (* dict containing aa name as key and token-id as value *)
  let aa_to_id :=
    match aa_to_id with
    | None => enumerate_vocab (unique_aa_tokens aa_tokens)
    | Some d => d
    end in
  (* convert aa to token_id *)
  token_ids ← lift (list_comp (list_comp (vocab_get aa_to_id)) aa_tokens);
  (* convert token_ids to one-hot *)
  match ohe_col with
  | Some oc =>
      one_hot ← lift (list_comp (one_hot_seq (size aa_to_id)) token_ids);
      modify (set_obs oc (ColOneHot one_hot));;
      stacked ← lift (np_stack one_hot);
      modify (set_obsm oc (ArrOneHot stacked))
  | None => mret tt
  end;;
  (* If specified write label as index sequence *)
  match label_col with
  | Some lc =>
      modify (set_obs lc (ColLabels token_ids));;
      stacked ← lift (np_stack token_ids);
      modify (set_obsm lc (ArrLabels stacked))
  | None => mret tt
  end;;
  modify (set_uns "aa_to_id" aa_to_id).

Definition aa_encoding (read_col : string)
    (ohe_col label_col length_col : option string)
    (pad : pad_arg) (aa_to_id : option vocab) (start_end_symbol : bool)
  : M unit :=
  pad ← prepare read_col ohe_col label_col length_col pad start_end_symbol;
  sequence_col ← sequence_col read_col pad;
  write_encoding ohe_col label_col aa_to_id sequence_col.

(** *** Vocabulary for the statements about [aa_encoding] *)

(** The column as lines 25-26 leave it. *)
Definition sentinels (start_end_symbol : bool) (col : list string)
  : list string :=
  if start_end_symbol then map wrap col else col.

(** [pad] as lines 27-28 leave it. *)
Definition effective_pad (start_end_symbol : bool) (pad : pad_arg) : pad_arg :=
  match start_end_symbol, pad with
  | true, PadInt n => PadInt (n + 2)
  | _, _ => pad
  end.

(** The container as lines 25-31 leave it. *)
Definition prepared (rc : string) (lc : option string) (ses : bool)
    (col : list string) (a : AnnData.t) : AnnData.t :=
  let a1 := if ses then set_obs rc (ColStr (map wrap col)) a else a in
  match truthy lc with
  | Some c => set_obs c (ColInt (map len (sentinels ses col))) a1
  | None => a1
  end.

(** Strictly increasing code points. *)
Definition char_lt (a b : ascii) : Prop := (N_of_ascii a < N_of_ascii b)%N.

(** The exception an outcome carries, if any. *)
Definition raised {A} (o : outcome A) : option exn :=
  match o with
  | Returns _ => None
  | Raises e => Some e
  end.

(** An outcome that is not an [AssertionError]. *)
Definition no_assertion {A} (o : outcome A) : Prop :=
  forall msg, raised o <> Some (AssertionError msg).

(** A computation that never raises [AssertionError]. *)
Definition never_asserts {A} (m : M A) : Prop :=
  forall a, no_assertion (m a).1.

(** A computation that leaves column [k] of [obs] as it found it. *)
Definition keeps_obs {A} (k : string) (m : M A) : Prop :=
  forall a, obs (m a).2 !! k = obs a !! k.

(** *** Vocabulary for the statements about what [aa_encoding] writes *)

(** The id of a character: its position in the sorted list. *)
Definition position (u : list ascii) (c : ascii) : Z :=
  match list_find (fun x => x = c) u with
  | Some (i, _) => Z.of_nat i
  | None => -1
  end.

(** The row [x] of a one-hot matrix for a token id. *)
Definition one_hot_row (width : nat) (token_id : Z) : list Qc :=
  <[Z.to_nat token_id := 1%Qc]> (replicate width 0%Qc).

(** What [np.stack] asks of a list of arrays. *)
Definition rectangular {A} (xs : list (list A)) : bool :=
  match xs with
  | [] => false
  | x :: xs' => forallb (fun y => Nat.eqb (length y) (length x)) xs'
  end.

(** The container as lines 59-68 leave it when nothing raises. *)
Definition encoded (ohe_col label_col : option string) (aa_to_id : vocab)
    (token_ids : list (list Z)) (one_hot : list (list (list Qc)))
    (a : AnnData.t) : AnnData.t :=
  let a1 := match ohe_col with
            | Some oc => set_obsm oc (ArrOneHot one_hot)
                           (set_obs oc (ColOneHot one_hot) a)
            | None => a
            end in
  let a2 := match label_col with
            | Some lc => set_obsm lc (ArrLabels token_ids)
                           (set_obs lc (ColLabels token_ids) a1)
            | None => a1
            end in
  set_uns "aa_to_id" aa_to_id a2.

(** The container as it is when [np.stack] refuses the first requested
    output: the column is written, the matrix is not. *)
Definition half_encoded (ohe_col label_col : option string)
    (token_ids : list (list Z)) (one_hot : list (list (list Qc)))
    (a : AnnData.t) : AnnData.t :=
  match ohe_col, label_col with
  | Some oc, _ => set_obs oc (ColOneHot one_hot) a
  | None, Some lc => set_obs lc (ColLabels token_ids) a
  | None, None => a
  end.

(** A computation that leaves entry [k] of one of the three dicts of the
    container as it found it, whether it returns or raises. *)
Definition keeps {A V} (field : AnnData.t -> gmap string V) (k : string)
    (m : M A) : Prop :=
  forall a, field (m a).2 !! k = field a !! k.

End Utils.

(** ** Tensors *)

Module Torch.

(** *** The tensor interface the forward pass is written against

    [world] is everything a call may read and update besides its
    arguments: the random generator behind [torch.randn_like] and
    dropout, and the buffers of the sub-modules.  Errors of the backend on
    ill-shaped arguments are not part of the interface. *)
Class Ops (tensor world : Type) : Type := {
  shape1 : tensor -> Z;                      (* [t.shape[1]] *)
  cols_to : Z -> tensor -> tensor;           (* [t[:, :k]] *)
  cols_from : Z -> tensor -> tensor;         (* [t[:, k:]] *)
  col : Z -> tensor -> tensor;               (* [t[:, i]] *)
  cat : list tensor -> Z -> tensor;          (* [torch.cat(ts, dim=d)] *)
  exp : tensor -> tensor;                    (* [torch.exp(t)] *)
  add : tensor -> tensor -> tensor;          (* [a + b] *)
  mul : tensor -> tensor -> tensor;          (* [a * b] *)
  scale : Qc -> tensor -> tensor;            (* [c * t] *)
  randn_like : tensor -> world -> tensor * world
}.

(** *** Dense tensors: a shape and the entries in row-major order *)

Record dense (A : Type) : Type := Dense {
  shape : list nat;
  data : list A
}.
Arguments Dense {A} shape data.
Arguments shape {A} d.
Arguments data {A} d.

Definition numel (sh : list nat) : nat := foldr Nat.mul 1%nat sh.

(** [t.shape[i]] *)
Definition shape_at {A} (t : dense A) (i : nat) : outcome Z :=
  match shape t !! i with
  | Some n => Returns (Z.of_nat n)
  | None => Raises IndexError
  end.

(** [torch.ones_like(t).bool()] *)
Definition ones_like_bool {A} (t : dense A) : dense bool :=
  Dense (shape t) (map (fun _ => true) (data t)).

(** [mask[:, idx] = v]: with [inner] entries per position of dimension
    1, entry [k] of the row-major data has index [(k / inner) mod
    shape[1]] in that dimension; an index is accepted when it lies in
    [-shape[1] .. shape[1]-1], the negative ones counting from the end. *)
Definition set_columns {A} (mask : dense A) (idx : list Z) (v : A)
  : outcome (dense A) :=
  match shape mask with
  | _ :: d1 :: rest =>
      let n := Z.of_nat d1 in
      let inner := Z.of_nat (numel rest) in
      if forallb (fun j => (- n <=? j) && (j <? n)) idx then
        let hit k := existsb (fun j => (Z.of_nat k / inner) mod n =? j mod n)
                             idx in
        Returns (Dense (shape mask)
                       (imap (fun k x => if hit k then v else x) (data mask)))
      else Raises IndexError
  | _ => Raises IndexError
  end.

(** [t[mask]] for a boolean [mask] of the shape of [t]: the entries
    at which the mask holds, in row-major order, as a 1-D tensor. *)
Definition masked_select {A} (t : dense A) (mask : dense bool)
  : outcome (dense A) :=
  if decide (shape t = shape mask) then
    let kept := map fst (filter (fun p => snd p = true)
                                (zip (data t) (data mask))) in
    Returns (Dense [length kept] kept)
  else Raises IndexError.

(** [t.flatten()] *)
Definition flatten {A} (t : dense A) : dense A :=
  Dense [numel (shape t)] (data t).

(** [t.flatten(end_dim=1)] *)
Definition flatten_end1 {A} (t : dense A) : outcome (dense A) :=
  match shape t with
  | d0 :: d1 :: rest => Returns (Dense ((d0 * d1)%nat :: rest) (data t))
  | _ => Raises IndexError
  end.

(** [a + b] for tensors of one shape.  What broadcasting makes of two
    different shapes is not modelled.  Entries are exact rationals:
    rounding and overflow of the float tensors are not modelled, and the
    statements made are those that hold of the expression as written. *)
Definition tadd (a b : dense Qc) : outcome (dense Qc) :=
  if decide (shape a = shape b) then
    Returns (Dense (shape a) (zip_with Qcplus (data a) (data b)))
  else Raises OutsideModel.

(** [c * t] *)
Definition tscale (c : Qc) (t : dense Qc) : dense Qc :=
  Dense (shape t) (map (Qcmult c) (data t)).

(** *** Vocabulary for the statements about the start-token mask *)

(** The entries of [l] whose index satisfies [f]: what [t[mask]] keeps
    when the mask holds [f k] at index [k]. *)
Definition keep {A} (f : nat -> bool) (l : list A) : list A :=
  map fst (filter (fun p => snd p = true) (zip l (imap (fun k _ => f k) l))).

(** A row without the first token of each of its two halves. *)
Definition without_chain_starts {A} (row : list A) : list A :=
  let h := (length row / 2)%nat in
  drop 1 (take h row) ++ drop 1 (drop h row).

(** The mask of [calculate_loss] at index [k] of the row-major data:
    [false] exactly in the columns [0] and [shape[1] // 2]. *)
Definition start_token_mask (ncols inner : Z) (k : nat) : bool :=
  negb (existsb (fun j => (Z.of_nat k / inner) mod ncols =? j mod ncols)
                [0; ncols / 2]).

(** The mask as [calculate_loss] builds it from [tcr]. *)
Definition start_mask {A} (tcr : dense A) (L : nat) (rest : list nat)
  : dense bool :=
  Dense (shape tcr)
    (imap (fun k x =>
             if negb (start_token_mask (Z.of_nat L) (Z.of_nat (numel rest)) k)
             then false else x)
          (map (fun _ => true) (data tcr))).

End Torch.

(** [xs[i]] on a Python list, for a non-negative literal [i]. *)
Definition py_index {A} (xs : list A) (i : nat) : outcome A :=
  match xs !! i with
  | Some x => Returns x
  | None => Raises IndexError
  end.

Definition half : Qc := Q2Qc (1 # 2).

(** ** [tcr_embedding/models/mixture_modules/moe.py] *)

Module MoE.
Import Torch.

(** *** [MoEModelTorch] *)

Section ModelTorch.
Context {tensor world : Type} `{!Ops tensor world}.

(** Computations that read and update the [world]. *)
Definition T (A : Type) : Type := world -> A * world.

#[export] Instance T_ret : MRet T := fun _ a w => (a, w).
#[export] Instance T_bind : MBind T := fun _ _ f m w =>
  let '(a, w') := m w in f a w'.

(** The sub-modules set up by [__init__]; each call of a sub-module is a
    computation in [T].  [cond_emb] exists when [cond_dim > 0], which is
    how a model that is passed a covariate is built. *)
Record MoEModelTorch : Type := {
  alpha_encoder : tensor -> tensor -> T tensor;
  alpha_decoder : tensor -> tensor -> T tensor;
  beta_encoder : tensor -> tensor -> T tensor;
  beta_decoder : tensor -> tensor -> T tensor;
  rna_encoder : tensor -> T tensor;
  rna_decoder : tensor -> T tensor;
  cond_emb : tensor -> T tensor;
  cond_input : bool;
  tcr_vae_encoder : tensor -> T tensor;
  tcr_vae_decoder : tensor -> T tensor;
  rna_vae_encoder : tensor -> T tensor;
  rna_vae_decoder : tensor -> T tensor;
  theta : tensor
}.

Variable self : MoEModelTorch.

Definition reparameterize (mu log_var : tensor) : T tensor :=
  let std := exp (scale half log_var) in
  eps ← randn_like std;
  let z := add mu (mul eps std) in
  mret z.

(** [for x in xs: body], the body updating the variable [acc]. *)
Fixpoint for_in {A B} (xs : list A) (body : B -> A -> T B) (acc : B) : T B :=
  match xs with
  | [] => mret acc
  | x :: xs' => acc' ← body acc x; for_in xs' body acc'
  end.

Definition forward (rna tcr tcr_len : tensor) (conditional : option tensor)
  : T (list tensor * list tensor * list tensor * list tensor * list tensor) :=
  cond_emb_vec ← match conditional with
                 | Some c => v ← cond_emb self c; mret (Some v)
                 | None => mret None
                 end;
  (* Encode TCR *)
  let alpha_seq := cols_to (shape1 tcr / 2) tcr in
  let alpha_len := col 0 tcr_len in
  let beta_seq := cols_from (shape1 tcr / 2) tcr in
  let beta_len := col 1 tcr_len in
  h_alpha ← alpha_encoder self alpha_seq alpha_len;
  h_beta ← beta_encoder self beta_seq beta_len;
  let h_tcr := cat [h_alpha; h_beta] (-1) in
  let h_tcr := match cond_emb_vec with
               | Some v => if cond_input self then cat [h_tcr; v] 1 else h_tcr
               | None => h_tcr
               end in
  (* Encode RNA *)
  h_rna ← rna_encoder self rna;
  let h_rna := match cond_emb_vec with
               | Some v => if cond_input self then cat [h_rna; v] 1 else h_rna
               | None => h_rna
               end in
  (* Predict Latent space *)
  z_rna_ ← rna_vae_encoder self h_rna;
  let mu_rna := cols_to (shape1 z_rna_ / 2) z_rna_ in
  let logvar_rna := cols_from (shape1 z_rna_ / 2) z_rna_ in
  z_rna ← reparameterize mu_rna logvar_rna;
  z_tcr_ ← tcr_vae_encoder self h_tcr;
  let mu_tcr := cols_to (shape1 z_tcr_ / 2) z_tcr_ in
  let logvar_tcr := cols_from (shape1 z_tcr_ / 2) z_tcr_ in
  z_tcr ← reparameterize mu_tcr logvar_tcr;
  let z := [z_rna; z_tcr] in
  let mu := [mu_rna; mu_tcr] in
  let logvar := [logvar_rna; logvar_tcr] in
  (* Reconstruction *)
  rna_pred ← for_in z (fun rna_pred z_ =>
    let z_ := match cond_emb_vec with
              | Some v => cat [z_; v] 1
              | None => z_
              end in
    f_rna ← rna_vae_decoder self z_;
    r ← rna_decoder self f_rna;
    mret (rna_pred ++ [r])) [];
  tcr_pred ← for_in z (fun tcr_pred z_ =>
    let z_ := match cond_emb_vec with
              | Some v => cat [z_; v] 1
              | None => z_
              end in
    f_tcr ← tcr_vae_decoder self z_;
    alpha_pred ← alpha_decoder self f_tcr alpha_seq;
    beta_pred ← beta_decoder self f_tcr beta_seq;
    mret (tcr_pred ++ [cat [alpha_pred; beta_pred] 1])) [];
  mret (z, mu, logvar, rna_pred, tcr_pred).

(** What the description of the forward pass names, each as a relation
    between tensors: "embedded from the covariate", "encoded from the RNA
    input", "sampled", "decoded from a latent".  Every call of a
    sub-module is made in some [world]. *)
Definition yields {A} (m : T A) (y : A) : Prop := exists w, (m w).1 = y.

Definition embeds (conditional cond_emb_vec : option tensor) : Prop :=
  match conditional, cond_emb_vec with
  | Some c, Some v => yields (cond_emb self c) v
  | None, None => True
  | _, _ => False
  end.

Definition with_cond_input (cond_emb_vec : option tensor) (h : tensor)
  : tensor :=
  match cond_emb_vec with
  | Some v => if cond_input self then cat [h; v] 1 else h
  | None => h
  end.

Definition with_cond (cond_emb_vec : option tensor) (z : tensor) : tensor :=
  match cond_emb_vec with
  | Some v => cat [z; v] 1
  | None => z
  end.

Definition split_latent (z_ : tensor) : tensor * tensor :=
  (cols_to (shape1 z_ / 2) z_, cols_from (shape1 z_ / 2) z_).

Definition encodes_rna (cond_emb_vec : option tensor) (rna : tensor)
    (mu_logvar : tensor * tensor) : Prop :=
  exists h_rna z_rna_,
    yields (rna_encoder self rna) h_rna
    /\ yields (rna_vae_encoder self (with_cond_input cond_emb_vec h_rna))
               z_rna_
    /\ mu_logvar = split_latent z_rna_.

Definition encodes_tcr (cond_emb_vec : option tensor) (tcr tcr_len : tensor)
    (mu_logvar : tensor * tensor) : Prop :=
  exists h_alpha h_beta z_tcr_,
    yields (alpha_encoder self (cols_to (shape1 tcr / 2) tcr) (col 0 tcr_len))
           h_alpha
    /\ yields (beta_encoder self (cols_from (shape1 tcr / 2) tcr)
                  (col 1 tcr_len)) h_beta
    /\ yields (tcr_vae_encoder self
                  (with_cond_input cond_emb_vec (cat [h_alpha; h_beta] (-1))))
               z_tcr_
    /\ mu_logvar = split_latent z_tcr_.

Definition samples (mu logvar z : tensor) : Prop :=
  yields (reparameterize mu logvar) z.

Definition decodes_rna (cond_emb_vec : option tensor) (z rna_pred : tensor)
  : Prop :=
  exists f_rna,
    yields (rna_vae_decoder self (with_cond cond_emb_vec z)) f_rna
    /\ yields (rna_decoder self f_rna) rna_pred.

Definition decodes_tcr (cond_emb_vec : option tensor)
    (tcr z tcr_pred : tensor) : Prop :=
  exists f_tcr alpha_pred beta_pred,
    yields (tcr_vae_decoder self (with_cond cond_emb_vec z)) f_tcr
    /\ yields (alpha_decoder self f_tcr (cols_to (shape1 tcr / 2) tcr))
               alpha_pred
    /\ yields (beta_decoder self f_tcr (cols_from (shape1 tcr / 2) tcr))
               beta_pred
    /\ tcr_pred = cat [alpha_pred; beta_pred] 1.

End ModelTorch.

Arguments T world A : clear implicits.
Arguments MoEModelTorch tensor world : clear implicits.

(** [MoEModelTorch.get_latent_from_z] on dense tensors. *)
Definition get_latent_from_z (z : list (dense Qc)) : outcome (dense Qc) :=
  z0 ← py_index z 0;
  z1 ← py_index z 1;
  s ← tadd z0 z1;
  mret (tscale half s).

(** *** [MoEModel]

    The attributes [calculate_loss] and [calculate_kld_loss] read are set
    up by the base class [VAEBaseModel]; they are the fields of this
    record. *)
Record MoEModel : Type := {
  loss_function_rna : dense Qc -> dense Qc -> Qc;
  loss_function_tcr : dense Qc -> dense Z -> Qc;
  loss_function_kld : dense Qc -> dense Qc -> Qc;
  loss_weights : list Qc;
  get_kl_annealing_factor : Z -> Qc
}.

Definition calculate_loss (self : MoEModel)
    (rna_pred : list (dense Qc)) (rna : dense Qc)
    (tcr_pred : list (dense Qc)) (tcr : dense Z) : outcome (Qc * Qc) :=
  rp0 ← py_index rna_pred 0;
  rp1 ← py_index rna_pred 1;
  let rna_loss :=
    (loss_function_rna self rp0 rna + loss_function_rna self rp1 rna)%Qc in
  w0 ← py_index (loss_weights self) 0;
  let rna_loss := (rna_loss * (half * w0))%Qc in
  (* For GRU and Transformer, as they don't predict start token for alpha
     and beta chain, so -2 *)
  tp0 ← py_index tcr_pred 0;
  pred_len ← shape_at tp0 1;
  tcr_len ← shape_at tcr 1;
  if pred_len =? tcr_len - 2 then
    let mask := ones_like_bool tcr in
    mask_len ← shape_at mask 1;
    mask ← set_columns mask [0; mask_len / 2] false;
    tp0 ← py_index tcr_pred 0;
    flat0 ← flatten_end1 tp0;
    target0 ← masked_select tcr mask;
    tp1 ← py_index tcr_pred 1;
    flat1 ← flatten_end1 tp1;
    target1 ← masked_select tcr mask;
    let tcr_loss :=
      (loss_function_tcr self flat0 (flatten target0)
       + loss_function_tcr self flat1 (flatten target1))%Qc in
    w1 ← py_index (loss_weights self) 1;
    let tcr_loss := (tcr_loss * (half * w1))%Qc in
    mret (rna_loss, tcr_loss)
  else (* For CNN, as it predicts start token *)
    tp0 ← py_index tcr_pred 0;
    flat0 ← flatten_end1 tp0;
    tp1 ← py_index tcr_pred 1;
    flat1 ← flatten_end1 tp1;
    let tcr_loss :=
      (loss_function_tcr self flat0 (flatten tcr)
       + loss_function_tcr self flat1 (flatten tcr))%Qc in
    w1 ← py_index (loss_weights self) 1;
    let tcr_loss := (tcr_loss * (half * w1))%Qc in
    mret (rna_loss, tcr_loss).

Definition calculate_kld_loss (self : MoEModel)
    (mu logvar : list (dense Qc)) (epoch : Z) : outcome (Qc * dense Qc) :=
  mu0 ← py_index mu 0;
  logvar0 ← py_index logvar 0;
  mu1 ← py_index mu 1;
  logvar1 ← py_index logvar 1;
  let kld_loss :=
    (loss_function_kld self mu0 logvar0
     + loss_function_kld self mu1 logvar1)%Qc in
  w2 ← py_index (loss_weights self) 2;
  let kld_loss :=
    (kld_loss * (half * w2 * get_kl_annealing_factor self epoch))%Qc in
  s ← tadd mu0 mu1;
  let z := tscale half s in
  mret (kld_loss, z).

(** *** Vocabulary for the statements about the losses *)

(** The ground truth that [calculate_loss] compares both TCR
    reconstructions with. *)
Definition tcr_target (pred_len : nat) (tcr : dense Z) : dense Z :=
  match shape tcr with
  | _ :: L :: rest =>
      if Z.of_nat pred_len =? Z.of_nat L - 2 then
        let kept := keep (start_token_mask (Z.of_nat L)
                            (Z.of_nat (numel rest))) (data tcr) in
        flatten (Dense [length kept] kept)
      else flatten tcr
  | _ => flatten tcr
  end.

(** The mean of two losses. *)
Definition mean2 (a b : Qc) : Qc := ((a + b) / 2)%Qc.

(** The losses as the specification words them: "average the two, multiply
    by 0.5 and the configured modality loss weight" (and, for the KL
    term, by the annealing factor as well). *)
Definition described_modality_loss (l_self l_cross w : Qc) : Qc :=
  (mean2 l_self l_cross * half * w)%Qc.

Definition described_kld_loss (kld0 kld1 w annealing : Qc) : Qc :=
  (mean2 kld0 kld1 * half * w * annealing)%Qc.

End MoE.

(** ** [tcr_embedding/models/optimization/knn_prediction.py] *)

Module KnnPrediction.

(** A Python dict with string keys, in insertion order. *)
Definition dict (V : Type) : Type := list (string * V).

Fixpoint dict_get {V} (d : dict V) (key : string) : outcome V :=
  match d with
  | [] => Raises (KeyError key)
  | (k, v) :: d' => if String.eqb k key then Returns v else dict_get d' key
  end.

(** A value of the metrics dict: a number (['accuracy']) or a per-class
    report (precision, recall, f1-score, support). *)
Inductive metric : Type :=
  | Number (x : Qc)
  | Report (r : dict Qc).

(** [metric[key]]: a float is not subscriptable. *)
Definition metric_get (m : metric) (key : string) : outcome Qc :=
  match m with
  | Number _ => Raises TypeError
  | Report r => dict_get r key
  end.

(** The comparison operators of module [operator] that the adapters
    hand out. *)
Inductive operator : Type :=
  | gt
  | lt.

Definition apply_operator (op : operator) (a b : Qc) : bool :=
  match op with
  | gt => bool_decide (b < a)%Qc
  | lt => bool_decide (a < b)%Qc
  end.

(** What the experiment tracker receives. *)
Inductive comet_call : Type :=
  | log_metrics (dic : metric) (prefix : string) (epoch : Z)
  | log_metric (name : string) (value : metric) (epoch : Z).

(** Everything the function does besides returning: lines printed and
    calls made on the tracker, oldest first. *)
Record effects : Type := Effects {
  stdout : list string;
  comet_calls : list comet_call
}.

Definition IO (A : Type) : Type := effects -> outcome A * effects.

#[export] Instance IO_ret : MRet IO := fun _ a s => (Returns a, s).
#[export] Instance IO_bind : MBind IO := fun _ _ f m s =>
  match m s with
  | (Returns a, s') => f a s'
  | (Raises e, s') => (Raises e, s')
  end.

Definition io {A} (o : outcome A) : IO A := fun s => (o, s).

Definition print (line : string) : IO unit :=
  fun s => (Returns tt, Effects (stdout s ++ [line]) (comet_calls s)).

Definition comet_do (c : comet_call) : IO unit :=
  fun s => (Returns tt, Effects (stdout s) (comet_calls s ++ [c])).

(** [try: body / except: handler] with a bare [except]. *)
Definition try_except {A} (body : IO A) (handler : IO A) : IO A :=
  fun s =>
    match body s with
    | (Returns a, s') => (Returns a, s')
    | (Raises _, s') => handler s'
    end.

Fixpoint for_items {V} (d : dict V) (body : string -> V -> IO unit)
  : IO unit :=
  match d with
  | [] => mret tt
  | (k, v) :: d' => body k v;; for_items d' body
  end.

Section Report.
(** The collaborators: the dataset, the model, the embedding function
    built from it, and the two imported routines. *)
Context {adata_t model_t embedding_func : Type}.
Variable get_model_prediction_function :
  model_t -> Z -> outcome embedding_func.
Variable run_imputation_evaluation :
  adata_t -> embedding_func -> string -> bool -> bool -> string ->
  outcome (dict (dict metric)).

(** The function returns [None] (the bare [return] of the handler) or a
    pair.  [attempt] is [None] when the handler ran, so that what follows
    the [try] statement is skipped, as [return] does. *)
Definition report_knn_prediction (adata : adata_t) (model : model_t)
    (optimization_mode_params : dict string) (batch_size epoch : Z)
    (comet : bool) : IO (option (Qc * operator)) :=
  test_embedding_func ← io (get_model_prediction_function model batch_size);
  attempt ← try_except
    (label_pred ← io (dict_get optimization_mode_params "prediction_column");
     summary ← io (run_imputation_evaluation adata test_embedding_func "val"
                     true true label_pred);
     mret (Some summary))
    (print "kNN did not work";; mret None);
  match attempt with
  | None => mret None
  | Some summary =>
      metrics ← io (dict_get summary "knn");
      (if comet then
         for_items metrics (fun antigen metric =>
           if negb (String.eqb antigen "accuracy") then
             comet_do (log_metrics metric antigen epoch)
           else
             comet_do (log_metric "accuracy" metric epoch))
       else mret tt);;
      weighted ← io (dict_get metrics "weighted avg");
      f1 ← io (metric_get weighted "f1-score");
      mret (Some (f1, gt))
  end.

End Report.

(** The tracker call that the loop of [report_knn_prediction] makes for
    one entry of the metrics. *)
Definition logged (epoch : Z) (item : string * metric) : comet_call :=
  if negb (String.eqb item.1 "accuracy")
  then log_metrics item.2 item.1 epoch
  else log_metric "accuracy" item.2 epoch.

End KnnPrediction.

(** ** Concrete inputs *)

Module Demo.
Import PyStr AnnData Utils Torch MoE KnnPrediction.

(** Two receptor sequences in column ['cdr3']. *)
Definition adata : AnnData.t :=
  AnnData.mk {[ "cdr3"%string := ColStr ["CASSL"%string; "CAS"%string] ]} ∅ ∅.

(** A model whose RNA loss is the summed squared error, whose TCR loss
    charges one unit per compared token, whose KL term is half the squared
    norm of the mean, with unit weights and a ramp [min(1, epoch / 10)]. *)
Definition sum_sq_error (pred target : dense Qc) : Qc :=
  foldr Qcplus 0%Qc
    (zip_with (fun p t => ((p - t) * (p - t))%Qc) (data pred) (data target)).

Definition token_count (pred : dense Qc) (target : dense Z) : Qc :=
  Q2Qc (inject_Z (Z.of_nat (length (data target)))).

Definition half_sq_norm (mu logvar : dense Qc) : Qc :=
  (half * foldr Qcplus 0 (map (fun m => m * m) (data mu)))%Qc.

Definition linear_ramp (epoch : Z) : Qc :=
  if epoch <? 10 then Q2Qc (epoch # 10) else 1%Qc.

Definition model : MoEModel := {|
  loss_function_rna := sum_sq_error;
  loss_function_tcr := token_count;
  loss_function_kld := half_sq_norm;
  loss_weights := [1%Qc; 1%Qc; 1%Qc];
  get_kl_annealing_factor := linear_ramp
|}.

(** One cell: two genes, two chains of three tokens each (id 0 is the
    start token), reconstructions without the start tokens. *)
Definition rna : dense Qc := Dense [1; 2]%nat [1%Qc; Q2Qc 3].
Definition rna_pred0 : dense Qc := Dense [1; 2]%nat [0%Qc; Q2Qc 3].
Definition rna_pred1 : dense Qc := Dense [1; 2]%nat [1%Qc; 1%Qc].
Definition tcr_rows : list (list Z) := [[0; 5; 6; 0; 7; 8]].
Definition tcr : dense Z := Dense [1; 6]%nat (concat tcr_rows).
Definition tcr_pred0 : dense Qc := Dense [1; 4; 2]%nat (replicate 8 0%Qc).
Definition tcr_pred1 : dense Qc := Dense [1; 4; 2]%nat (replicate 8 1%Qc).
Definition mu0 : dense Qc := Dense [1; 2]%nat [1%Qc; Q2Qc 2].
Definition mu1 : dense Qc := Dense [1; 2]%nat [Q2Qc 3; 0%Qc].
Definition logvar0 : dense Qc := Dense [1; 2]%nat [0%Qc; 0%Qc].

(** Collaborators of the reporting adapter: an evaluation that fails
    (too few samples per class) and one that succeeds. *)
Definition prediction_function (model : unit) (batch_size : Z)
  : outcome unit := Returns tt.

Definition failing_evaluation (adata : unit) (f : unit) (query_source : string)
    (use_non_binder use_reduced_binders : bool) (label_pred : string)
  : outcome (dict (dict metric)) := Raises ValueError.

Definition report : metric :=
  Report [("precision"%string, 1%Qc); ("f1-score"%string, half)].

Definition metrics : dict metric :=
  [("GILGFVFTL"%string, report);
   ("accuracy"%string, Number half);
   ("weighted avg"%string, report)].

Definition summary : dict (dict metric) := [("knn"%string, metrics)].

Definition working_evaluation (adata : unit) (f : unit) (query_source : string)
    (use_non_binder use_reduced_binders : bool) (label_pred : string)
  : outcome (dict (dict metric)) := Returns summary.

Definition params : dict string :=
  [("prediction_column"%string, "binding_name"%string)].

Definition quiet : effects := Effects [] [].

End Demo.

(** ** A tracing implementation of the tensor interface

    A tensor is the expression that computes it; the [world] counts the
    random draws made so far.  Running the forward pass on it shows which
    input each output is computed from. *)

Module Trace.
Import Torch MoE.

#[local] Unset Elimination Schemes.
Inductive expr : Type :=
  | Input (name : string) (ncols : Z)
  | Call (f : string) (ncols : Z) (args : list expr)
  | Noise (draw : nat) (like : expr).
#[local] Set Elimination Schemes.

Fixpoint ncols (e : expr) : Z :=
  match e with
  | Input _ n => n
  | Call _ n _ => n
  | Noise _ like => ncols like
  end.

#[global] Instance ops : Ops expr nat := {|
  shape1 := ncols;
  cols_to k t := Call "cols_to" k [t];
  cols_from k t := Call "cols_from" (ncols t - k) [t];
  col i t := Call "col" 1 [t];
  cat ts d := Call "cat" (foldr Z.add 0 (map ncols ts)) ts;
  exp t := Call "exp" (ncols t) [t];
  add a b := Call "add" (ncols a) [a; b];
  mul a b := Call "mul" (ncols a) [a; b];
  scale c t := Call "scale" (ncols t) [t];
  randn_like t draws := (Noise draws t, S draws)
|}.

Definition module1 (name : string) (out : Z) (x : expr) : T nat expr :=
  fun draws => (Call name out [x], draws).

Definition module2 (name : string) (out : Z) (x y : expr) : T nat expr :=
  fun draws => (Call name out [x; y], draws).

(** [xdim = 3], [hdim = 4], [zdim = 2], chains of three tokens. *)
Definition model : MoEModelTorch expr nat := {|
  alpha_encoder := module2 "alpha_encoder" 2;
  alpha_decoder := module2 "alpha_decoder" 3;
  beta_encoder := module2 "beta_encoder" 2;
  beta_decoder := module2 "beta_decoder" 3;
  rna_encoder := module1 "rna_encoder" 4;
  rna_decoder := module1 "rna_decoder" 3;
  cond_emb := module1 "cond_emb" 1;
  cond_input := false;
  tcr_vae_encoder := module1 "tcr_vae_encoder" 4;
  tcr_vae_decoder := module1 "tcr_vae_decoder" 4;
  rna_vae_encoder := module1 "rna_vae_encoder" 4;
  rna_vae_decoder := module1 "rna_vae_decoder" 4;
  theta := Input "theta" 3
|}.

Definition rna : expr := Input "rna" 3.
Definition tcr : expr := Input "tcr" 6.
Definition tcr_len : expr := Input "tcr_len" 2.

Definition alpha_seq : expr := Call "cols_to" 3 [tcr].
Definition beta_seq : expr := Call "cols_from" 3 [tcr].

Definition latent (encoded : expr) (draw : nat) : expr :=
  let mu := Call "cols_to" 2 [encoded] in
  let logvar := Call "cols_from" 2 [encoded] in
  let std := Call "exp" 2 [Call "scale" 2 [logvar]] in
  Call "add" 2 [mu; Call "mul" 2 [Noise draw std; std]].

Definition z_rna : expr :=
  latent (Call "rna_vae_encoder" 4 [Call "rna_encoder" 4 [rna]]) 0.

Definition z_tcr : expr :=
  latent (Call "tcr_vae_encoder" 4
            [Call "cat" 4 [Call "alpha_encoder" 2 [alpha_seq;
                                                   Call "col" 1 [tcr_len]];
                           Call "beta_encoder" 2 [beta_seq;
                                                  Call "col" 1 [tcr_len]]]])
         1.

Definition rna_from (z : expr) : expr :=
  Call "rna_decoder" 3 [Call "rna_vae_decoder" 4 [z]].

Definition tcr_from (z : expr) : expr :=
  let f_tcr := Call "tcr_vae_decoder" 4 [z] in
  Call "cat" 6 [Call "alpha_decoder" 3 [f_tcr; alpha_seq];
                Call "beta_decoder" 3 [f_tcr; beta_seq]].

End Trace.

(** ** [tcr_embedding/models/optimization/modulation_prediction.py] *)

Module ModulationPrediction.
Import KnnPrediction.

(** What the experiment tracker receives: here both calls also pass
    [step=int(epoch)]; the epoch is an integer. *)
Inductive comet_call : Type :=
  | log_metric (name : string) (value : metric) (step epoch : Z)
  | log_metrics (dic : metric) (prefix : string) (step epoch : Z).

(** Computations that may raise and that call the tracker; the state is
    the list of calls made so far, oldest first. *)
Definition Log (A : Type) : Type :=
  list comet_call -> outcome A * list comet_call.

#[export] Instance Log_ret : MRet Log := fun _ a s => (Returns a, s).
#[export] Instance Log_bind : MBind Log := fun _ _ f m s =>
  match m s with
  | (Returns a, s') => f a s'
  | (Raises e, s') => (Raises e, s')
  end.

Definition pure {A} (o : outcome A) : Log A := fun s => (o, s).

Definition comet_do (c : comet_call) : Log unit :=
  fun s => (Returns tt, s ++ [c]).

Fixpoint for_items {V} (d : dict V) (body : string -> V -> Log unit)
  : Log unit :=
  match d with
  | [] => mret tt
  | (k, v) :: d' => body k v;; for_items d' body
  end.

Section Report.
Context {adata_t model_t : Type}.
Variable run_scgen_cross_validation :
  adata_t -> string -> model_t -> string -> string -> string -> Z ->
  outcome (dict metric).

Definition report_modulation_prediction (adata : adata_t) (model : model_t)
    (optimization_mode_params : dict string) (batch_size epoch : Z)
    (comet : bool) : Log (metric * operator) :=
  column_fold ← pure (dict_get optimization_mode_params "column_fold");
  column_perturbation ←
    pure (dict_get optimization_mode_params "column_perturbation");
  indicator_perturbation ←
    pure (dict_get optimization_mode_params "indicator_perturbation");
  column_cluster ← pure (dict_get optimization_mode_params "column_cluster");
  summary ← pure (run_scgen_cross_validation adata column_fold model
                    column_perturbation indicator_perturbation column_cluster
                    batch_size);
  score ← pure (dict_get summary "avg_r_squared");
  (if comet then
     for_items summary (fun key value =>
       if String.eqb key "avg_r_squared" then
         comet_do (log_metric key value epoch epoch)
       else
         comet_do (log_metrics value key epoch epoch))
   else mret tt);;
  mret (score, gt).

End Report.

(** The tracker call that the loop makes for one entry of the summary. *)
Definition logged (epoch : Z) (item : string * metric) : comet_call :=
  if String.eqb item.1 "avg_r_squared"
  then log_metric item.1 item.2 epoch epoch
  else log_metrics item.2 item.1 epoch epoch.

End ModulationPrediction.

(** ** [stratified_group_shuffle_split] of [tcr_embedding/utils.py] *)

Module Split.
Import Utils.

Section StratifiedGroupShuffleSplit.
(** A data frame is the list of its rows; [stratify_of] reads the column
    [stratify_col] of a row, [None] standing for a missing value (NaN,
    None), and [group_of] the column [group_col].

    [group_shuffle_split test_size random_state groups] is
    [next(GroupShuffleSplit(test_size=test_size, n_splits=1,
    random_state=random_state).split(group, groups=groups))]: the
    positions it puts in the training and in the test part. *)
Context {row : Type}.
Variable stratify_of : row -> option string.
Variable group_of : row -> string.
Variable group_shuffle_split :
  Qc -> Z -> list string -> outcome (list nat * list nat).

(** [df.groupby(stratify_col)]: one group per value, the values in
    sorted order, the rows of a group in the order of the frame.  A row
    whose value is missing is in no group ([dropna=True], the default). *)
Definition groupby (df : list row) : list (string * list row) :=
  map (fun key => (key, filter (fun r => stratify_of r = Some key) df))
      (merge_sort String.le (remove_dups (omap stratify_of df))).

(** [group.iloc[inds]] for positions counted from the start. *)
Definition iloc (group : list row) (inds : list nat) : outcome (list row) :=
  list_comp (py_index group) inds.

(** The body of the loop; [continue] returns the two lists as they are. *)
Definition split_group (val_split : Qc) (random_seed : Z)
    (all_train all_test : list string) (group : list row)
  : outcome (list string * list string) :=
  (* if a group is already taken in test or train it must stay there *)
  let group := filter (fun r => group_of r ∉ all_train ++ all_test) group in
  (* if group is empty *)
  if Nat.eqb (length group) 0 then Returns (all_train, all_test)
  else if Nat.ltb 1 (length group) then
    inds ← group_shuffle_split val_split random_seed (map group_of group);
    train_rows ← iloc group inds.1;
    let all_train := all_train ++ map group_of train_rows in
    test_rows ← iloc group inds.2;
    let all_test := all_test ++ map group_of test_rows in
    Returns (all_train, all_test)
  else (* if there is only one clonotype for this particular label *)
    Returns (all_train ++ map group_of group, all_test).

Fixpoint for_groups (val_split : Qc) (random_seed : Z)
    (groups : list (string * list row)) (all_train all_test : list string)
  : outcome (list string * list string) :=
  match groups with
  | [] => Returns (all_train, all_test)
  | (group_id, group) :: groups' =>
      acc ← split_group val_split random_seed all_train all_test group;
      for_groups val_split random_seed groups' acc.1 acc.2
  end.

Definition stratified_group_shuffle_split (df : list row)
    (val_split : Qc) (random_seed : Z) : outcome (list row * list row) :=
  let groups := groupby df in
  acc ← for_groups val_split random_seed groups [] [];
  let train := filter (fun r => group_of r ∈ acc.1) df in
  let test := filter (fun r => group_of r ∈ acc.2) df in
  Returns (train, test).

(** What [GroupShuffleSplit] promises of a split it returns: no group on
    both sides, and every position on one side. *)
Definition keeps_groups_together : Prop :=
  forall test_size random_state groups inds i j g,
    group_shuffle_split test_size random_state groups = Returns inds ->
    i ∈ inds.1 -> j ∈ inds.2 ->
    groups !! i = Some g -> groups !! j <> Some g.

Definition places_every_position : Prop :=
  forall test_size random_state groups inds i,
    group_shuffle_split test_size random_state groups = Returns inds ->
    (i < length groups)%nat -> i ∈ inds.1 \/ i ∈ inds.2.

End StratifiedGroupShuffleSplit.

End Split.

(** ** Further concrete inputs *)

Module Cases.
Import PyStr AnnData Utils Torch MoE KnnPrediction.

(** A container whose sequence column has no rows, and one without the
    column. *)
Definition no_rows : AnnData.t :=
  AnnData.mk {[ "cdr3"%string := ColStr [] ]} ∅ ∅.

Definition no_column : AnnData.t := AnnData.mk ∅ ∅ ∅.

(** A vocabulary that knows the letter A only. *)
Definition only_a : vocab := {[ "A"%char := 0 ]}.

(** The demonstration batch with other start tokens. *)
Definition tcr_rows' : list (list Z) := [[9; 5; 6; 9; 7; 8]].

(** Parameters without the prediction column, and an evaluation whose
    metrics lack the weighted average. *)
Definition no_params : dict string := [].

Definition accuracy_only : dict metric := [("accuracy"%string, Number half)].

Definition incomplete_evaluation (adata : unit) (f : unit)
    (query_source : string) (use_non_binder use_reduced_binders : bool)
    (label_pred : string) : outcome (dict (dict metric)) :=
  Returns [("knn"%string, accuracy_only)].

(** Collaborators of the modulation adapter. *)
Definition modulation_params : dict string :=
  [("column_fold"%string, "fold"%string);
   ("column_perturbation"%string, "treatment"%string);
   ("indicator_perturbation"%string, "pre"%string);
   ("column_cluster"%string, "cluster"%string)].

Definition per_cluster : metric :=
  Report [("r_squared"%string, half)].

Definition modulation_summary : dict metric :=
  [("cluster_0"%string, per_cluster);
   ("avg_r_squared"%string, Number half)].

Definition cross_validation (adata : unit) (column_fold : string)
    (model : unit) (column_perturbation indicator_perturbation
                      column_cluster : string) (batch_size : Z)
  : outcome (dict metric) := Returns modulation_summary.

(** A frame of cells: the label to stratify by, if known, and the
    clonotype.  The splitter holds out the rows of the last clonotype it
    is given, and refuses when that leaves nothing to train on. *)
Definition cell : Type := option string * string.

Definition cells : list cell :=
  [(Some "flu"%string, "c1"%string); (Some "flu"%string, "c2"%string);
   (Some "flu"%string, "c1"%string); (Some "cmv"%string, "c3"%string);
   (None, "c4"%string); (None, "c2"%string)].

Definition one_per_label : list cell :=
  [(Some "flu"%string, "c1"%string); (Some "cmv"%string, "c1"%string);
   (None, "c1"%string); (None, "c5"%string)].

Fixpoint positions (p : string -> bool) (groups : list string) (i : nat)
  : list nat :=
  match groups with
  | [] => []
  | g :: groups' =>
      (if p g then [i] else []) ++ positions p groups' (S i)
  end.

Definition hold_out_last (test_size : Qc) (random_state : Z)
    (groups : list string) : outcome (list nat * list nat) :=
  match last groups with
  | None => Raises ValueError
  | Some held =>
      let train := positions (fun g => negb (String.eqb g held)) groups 0 in
      if Nat.eqb (length train) 0 then Raises ValueError
      else Returns (train, positions (String.eqb held) groups 0)
  end.

End Cases.

(** * Properties *)

(** ** The sequence codec *)

Module UtilsProps.
Import PyStr AnnData Utils.

(** *** Strings *)

Lemma len_app s1 s2 : len (s1 +:+ s2) = len s1 + len s2.
Proof.
  unfold len. induction s1 as [|c s1 IH].
  - change (EmptyString +:+ s2)%string with s2. cbn [String.length]. lia.
  - change (String c s1 +:+ s2)%string with (String c (s1 +:+ s2)).
    cbn [String.length]. lia.
Qed.

Lemma app_empty_r s : (s +:+ EmptyString)%string = s.
Proof.
  induction s as [|c s IH]; [reflexivity|].
  change (String c s +:+ EmptyString)%string
    with (String c (s +:+ EmptyString)).
  now rewrite IH.
Qed.

Lemma len_fill n c : len (fill n c) = Z.of_nat n.
Proof.
  unfold len. induction n as [|n IH]; cbn [fill String.length]; lia.
Qed.

Lemma len_nonneg s : 0 <= len s.
Proof. unfold len. lia. Qed.

Lemma len_wrap s : len (wrap s) = len s + 2.
Proof.
  unfold wrap. rewrite !len_app. unfold len. cbn [String.length]. lia.
Qed.

Lemma len_ljust w c s : len (ljust w c s) = Z.max (len s) w.
Proof.
  unfold ljust. rewrite len_app, len_fill.
  pose proof (len_nonneg s). lia.
Qed.

Lemma ljust_short w c s : w <= len s -> ljust w c s = s.
Proof.
  intros Hw. unfold ljust.
  replace (Z.to_nat (w - len s)) with 0%nat by lia.
  cbn [fill]. apply app_empty_r.
Qed.

(** *** Running the monad *)

Lemma read_str_ok rc col a :
  obs a !! rc = Some (ColStr col) -> read_str rc a = (Returns col, a).
Proof. intros H. unfold read_str. now rewrite H. Qed.

Lemma read_str_state {rc a} : (read_str rc a).2 = a.
Proof. unfold read_str. destruct (obs a !! rc) as [[]|]; reflexivity. Qed.

Lemma no_assertion_neq {A} (o : outcome A) msg :
  no_assertion o -> o <> Raises (AssertionError msg).
Proof. intros H ->. now apply (H msg). Qed.

Lemma never_asserts_bind {A B} (m : M A) (f : A -> M B) :
  never_asserts m -> (forall x, never_asserts (f x)) -> never_asserts (m ≫= f).
Proof.
  intros Hm Hf a msg. unfold mbind, M_bind.
  specialize (Hm a msg). destruct (m a) as [[x|e] a'].
  - apply Hf.
  - exact Hm.
Qed.

Lemma never_asserts_ret {A} (x : A) : never_asserts (mret x).
Proof. intros a msg. discriminate. Qed.

Lemma never_asserts_modify f : never_asserts (modify f).
Proof. intros a msg. discriminate. Qed.

Lemma never_asserts_lift {A} (o : outcome A) :
  no_assertion o -> never_asserts (lift o).
Proof. intros Ho a. exact Ho. Qed.

Lemma never_asserts_read_str rc : never_asserts (read_str rc).
Proof.
  intros a msg. unfold read_str.
  destruct (obs a !! rc) as [[]|]; discriminate.
Qed.

Lemma no_assertion_list_comp {A B} (f : A -> outcome B) xs :
  (forall x, no_assertion (f x)) -> no_assertion (list_comp f xs).
Proof.
  intros Hf. induction xs as [|x xs IH]; intros msg; cbn [list_comp].
  - discriminate.
  - specialize (Hf x msg). destruct (f x) as [y|e]; [|exact Hf].
    specialize (IH msg). destruct (list_comp f xs); [discriminate|exact IH].
Qed.

Lemma no_assertion_vocab_get v c : no_assertion (vocab_get v c).
Proof. intros msg. unfold vocab_get. destruct (v !! c); discriminate. Qed.

Lemma no_assertion_np_setitem x i v : no_assertion (np_setitem x i v).
Proof.
  intros msg. unfold np_setitem.
  repeat match goal with |- context [if ?b then _ else _] => destruct b end;
    discriminate.
Qed.

Lemma no_assertion_np_stack {A} (xs : list (list A)) : no_assertion (np_stack xs).
Proof.
  intros msg. unfold np_stack. destruct xs; [discriminate|].
  destruct (forallb _ _); discriminate.
Qed.

Lemma no_assertion_series_max xs : no_assertion (series_max xs).
Proof. intros msg. destruct xs; discriminate. Qed.

Ltac never_asserts :=
  repeat first
    [ apply never_asserts_bind; [|intros ?]
    | apply never_asserts_ret
    | apply never_asserts_modify
    | apply never_asserts_read_str
    | apply never_asserts_lift
    | apply no_assertion_list_comp; intros ?
    | apply no_assertion_vocab_get
    | apply no_assertion_np_setitem
    | apply no_assertion_np_stack
    | apply no_assertion_series_max ].

Lemma never_asserts_sequence_col rc pad : never_asserts (sequence_col rc pad).
Proof. destruct pad as [n|[]]; cbn [sequence_col]; never_asserts. Qed.

Lemma never_asserts_write_encoding ohe lab v seqs :
  never_asserts (write_encoding ohe lab v seqs).
Proof.
  unfold write_encoding, one_hot_seq.
  destruct ohe, lab; never_asserts.
Qed.

Lemma never_asserts_prepare rc ohe lab lc pad ses :
  is_None lab && is_None ohe = false ->
  never_asserts (prepare rc ohe lab lc pad ses).
Proof.
  intros H. unfold prepare. rewrite H.
  destruct ses, (truthy lc); never_asserts.
Qed.

Lemma never_asserts_aa_encoding rc ohe lab lc pad v ses :
  is_None lab && is_None ohe = false ->
  never_asserts (aa_encoding rc ohe lab lc pad v ses).
Proof.
  intros H. unfold aa_encoding.
  apply never_asserts_bind; [now apply never_asserts_prepare|intros pad'].
  apply never_asserts_bind; [apply never_asserts_sequence_col|intros seqs].
  apply never_asserts_write_encoding.
Qed.

(** C8.  A call of [aa_encoding] with neither [label_col] nor [ohe_col]
    raises the assertion error at once: the container it returns is the
    one it was given, nothing encoded, padded or written.  A call that
    names a label column, or a one-hot column, never raises an assertion
    error, whatever else happens to it. *)
Theorem aa_encoding_output_column_check
    (read_col : string) (ohe_col label_col length_col : option string)
    (pad : pad_arg) (aa_to_id : option vocab) (start_end_symbol : bool)
    (adata : AnnData.t) :
  aa_encoding read_col None None length_col pad aa_to_id start_end_symbol adata
  = (Raises (AssertionError
       "Specify at least one column to write: ohe_col or label_col"), adata)
  /\ (forall lc msg,
        (aa_encoding read_col ohe_col (Some lc) length_col pad aa_to_id
           start_end_symbol adata).1 <> Raises (AssertionError msg))
  /\ (forall oc msg,
        (aa_encoding read_col (Some oc) label_col length_col pad aa_to_id
           start_end_symbol adata).1 <> Raises (AssertionError msg)).
Proof.
  split; [reflexivity|]. split; intros c msg; apply no_assertion_neq.
  - apply never_asserts_aa_encoding. reflexivity.
  - apply never_asserts_aa_encoding. destruct label_col; reflexivity.
Qed.


(** *** What each part leaves in the container *)

Lemma bind_returns {A B} (m : M A) (f : A -> M B) a y a' :
  (m ≫= f) a = (Returns y, a') ->
  exists x a1, m a = (Returns x, a1) /\ f x a1 = (Returns y, a').
Proof.
  unfold mbind, M_bind. destruct (m a) as [[x|e] a1]; [|discriminate].
  intros H. now exists x, a1.
Qed.

Lemma keeps_obs_bind {A B} k (m : M A) (f : A -> M B) :
  keeps_obs k m -> (forall x, keeps_obs k (f x)) -> keeps_obs k (m ≫= f).
Proof.
  intros Hm Hf a. unfold mbind, M_bind.
  specialize (Hm a). destruct (m a) as [[x|e] a']; cbn [snd] in *.
  - now rewrite Hf.
  - exact Hm.
Qed.

Lemma keeps_obs_ret {A} k (x : A) : keeps_obs k (mret x).
Proof. intros a. reflexivity. Qed.

Lemma keeps_obs_lift {A} k (o : outcome A) : keeps_obs k (lift o).
Proof. intros a. reflexivity. Qed.

Lemma keeps_obs_set_obs k k' c : k' <> k -> keeps_obs k (modify (set_obs k' c)).
Proof. intros Hk a. cbn. now rewrite lookup_insert_ne. Qed.

Lemma keeps_obs_set_obsm k k' x : keeps_obs k (modify (set_obsm k' x)).
Proof. intros a. reflexivity. Qed.

Lemma keeps_obs_set_uns k k' v : keeps_obs k (modify (set_uns k' v)).
Proof. intros a. reflexivity. Qed.

Lemma keeps_obs_write_encoding k ohe lab v seqs :
  ohe <> Some k -> lab <> Some k -> keeps_obs k (write_encoding ohe lab v seqs).
Proof.
  intros Ho Hl. unfold write_encoding.
  apply keeps_obs_bind; [apply keeps_obs_lift|intros token_ids].
  apply keeps_obs_bind.
  { destruct ohe as [oc|]; [|apply keeps_obs_ret].
    apply keeps_obs_bind; [apply keeps_obs_lift|intros one_hot].
    apply keeps_obs_bind; [apply keeps_obs_set_obs; congruence|intros _].
    apply keeps_obs_bind; [apply keeps_obs_lift|intros stacked].
    apply keeps_obs_set_obsm. }
  intros _. apply keeps_obs_bind; [|intros _; apply keeps_obs_set_uns].
  destruct lab as [c|]; [|apply keeps_obs_ret].
  apply keeps_obs_bind; [apply keeps_obs_set_obs; congruence|intros _].
  apply keeps_obs_bind; [apply keeps_obs_lift|intros stacked].
  apply keeps_obs_set_obsm.
Qed.

Lemma sequence_col_state rc pad a : (sequence_col rc pad a).2 = a.
Proof.
  destruct pad as [n|[]]; cbn [sequence_col]; unfold mbind, M_bind, read_str;
    destruct (obs a !! rc) as [[]|]; try reflexivity.
  cbn. unfold lift. destruct (series_max _); reflexivity.
Qed.

Lemma prepare_run rc ohe lab lc pad ses col a :
  obs a !! rc = Some (ColStr col) ->
  is_None lab && is_None ohe = false ->
  prepare rc ohe lab lc pad ses a
  = (Returns (effective_pad ses pad), prepared rc lc ses col a).
Proof.
  intros Hrc Hout. unfold prepare, prepared. rewrite Hout.
  unfold mbind at 1, M_bind at 1. cbn [mret M_ret].
  destruct ses; unfold mbind, M_bind, sentinels.
  - rewrite (read_str_ok rc col a Hrc). cbn [modify mret M_ret].
    destruct (truthy lc) as [c|].
    + rewrite (read_str_ok rc (map wrap col)).
      * now destruct pad.
      * cbn. apply lookup_insert_eq.
    + now destruct pad.
  - cbn [mret M_ret]. destruct (truthy lc) as [c|].
    + now rewrite (read_str_ok rc col a Hrc).
    + reflexivity.
Qed.

Lemma prepared_read rc lc ses col a :
  obs a !! rc = Some (ColStr col) ->
  truthy lc <> Some rc ->
  obs (prepared rc lc ses col a) !! rc = Some (ColStr (sentinels ses col)).
Proof.
  intros Hrc Hlc. unfold prepared, sentinels.
  destruct (truthy lc) as [c|], ses; cbn;
    rewrite ?lookup_insert_ne by congruence;
    rewrite ?lookup_insert_eq; done.
Qed.

Lemma aa_encoding_keeps_read_col rc ohe lab lc pad v ses col a :
  obs a !! rc = Some (ColStr col) ->
  is_None lab && is_None ohe = false ->
  ohe <> Some rc -> lab <> Some rc -> truthy lc <> Some rc ->
  obs (aa_encoding rc ohe lab lc pad v ses a).2 !! rc
  = Some (ColStr (sentinels ses col)).
Proof.
  intros Hrc Hout Ho Hl Hlc. unfold aa_encoding.
  unfold mbind at 1, M_bind at 1. rewrite (prepare_run _ _ _ _ _ _ col) by done.
  unfold mbind, M_bind.
  pose proof (sequence_col_state rc (effective_pad ses pad)
                (prepared rc lc ses col a)) as Hst.
  destruct (sequence_col _ _ _) as [[seqs|e] a']; cbn [snd] in *; subst a'.
  - rewrite keeps_obs_write_encoding by done. now apply prepared_read.
  - now apply prepared_read.
Qed.

Lemma aa_encoding_length_col rc ohe lab lc pad v ses col a c :
  obs a !! rc = Some (ColStr col) ->
  is_None lab && is_None ohe = false ->
  truthy lc = Some c -> ohe <> Some c -> lab <> Some c ->
  obs (aa_encoding rc ohe lab lc pad v ses a).2 !! c
  = Some (ColInt (map len (sentinels ses col))).
Proof.
  intros Hrc Hout Hlc Ho Hl. unfold aa_encoding.
  unfold mbind at 1, M_bind at 1. rewrite (prepare_run _ _ _ _ _ _ col) by done.
  unfold mbind, M_bind.
  pose proof (sequence_col_state rc (effective_pad ses pad)
                (prepared rc lc ses col a)) as Hst.
  assert (obs (prepared rc lc ses col a) !! c
          = Some (ColInt (map len (sentinels ses col)))) as Hc.
  { unfold prepared. rewrite Hlc. cbn. apply lookup_insert_eq. }
  destruct (sequence_col _ _ _) as [[seqs|e] a']; cbn [snd] in *; subst a'.
  - now rewrite keeps_obs_write_encoding.
  - done.
Qed.

Lemma wrap_changes s : wrap s <> s.
Proof. intros H. apply (f_equal len) in H. rewrite len_wrap in H. lia. Qed.

(** C10.  With [start_end_symbol] set, [aa_encoding] overwrites
    [adata.obs[read_col]] with the strings ['<' + s + '>'], whether or not
    a later step raises; the lengths written to [length_col] are those of
    the wrapped strings, the original lengths plus 2; a second call on the
    result wraps the wrapped strings again, so the column differs from the
    one the first call left.  The output columns are assumed to be other
    columns than [read_col]. *)
Theorem aa_encoding_wraps_read_col_in_place
    (read_col : string) (ohe_col label_col length_col : option string)
    (pad : pad_arg) (aa_to_id : option vocab)
    (col : list string) (adata : AnnData.t) :
  obs adata !! read_col = Some (ColStr col) ->
  is_None label_col && is_None ohe_col = false ->
  ohe_col <> Some read_col -> label_col <> Some read_col ->
  truthy length_col <> Some read_col ->
  let once :=
    (aa_encoding read_col ohe_col label_col length_col pad aa_to_id true
       adata).2 in
  let twice :=
    (aa_encoding read_col ohe_col label_col length_col pad aa_to_id true
       once).2 in
  obs once !! read_col = Some (ColStr (map wrap col))
  /\ (forall c, truthy length_col = Some c ->
        ohe_col <> Some c -> label_col <> Some c ->
        obs once !! c = Some (ColInt (map (fun s => len s + 2) col)))
  /\ obs twice !! read_col = Some (ColStr (map wrap (map wrap col)))
  /\ (col <> [] -> obs twice !! read_col <> obs once !! read_col).
Proof.
  intros Hrc Hout Ho Hl Hlc once twice.
  assert (obs once !! read_col = Some (ColStr (map wrap col))) as Honce.
  { unfold once. now rewrite (aa_encoding_keeps_read_col _ _ _ _ _ _ _ col). }
  assert (obs twice !! read_col = Some (ColStr (map wrap (map wrap col))))
    as Htwice.
  { unfold twice.
    now rewrite (aa_encoding_keeps_read_col _ _ _ _ _ _ _ (map wrap col)). }
  split; [exact Honce|]. split; [|split; [exact Htwice|]].
  - intros c Hc Hoc Hlab. unfold once.
    rewrite (aa_encoding_length_col _ _ _ _ _ _ _ col _ c) by done.
    cbn [sentinels]. do 2 f_equal. rewrite map_map.
    apply map_ext. intros s. apply len_wrap.
  - intros Hne. rewrite Honce, Htwice. intros [= H].
    destruct col as [|s col']; [done|]. cbn [map] in H.
    injection H as H _. now apply wrap_changes in H.
Qed.


(** *** Padding *)

Lemma foldl_max_spec (xs : list Z) (x : Z) :
  x <= foldl Z.max x xs
  /\ Forall (fun y => y <= foldl Z.max x xs) xs
  /\ (foldl Z.max x xs = x \/ foldl Z.max x xs ∈ xs).
Proof.
  revert x. induction xs as [|y ys IH]; intros x; cbn [foldl].
  - split; [lia|]. split; [constructor|now left].
  - destruct (IH (Z.max x y)) as (Hle & Hall & Hin).
    set (m := foldl Z.max (Z.max x y) ys) in *.
    split; [lia|]. split; [constructor; [lia|exact Hall]|].
    destruct Hin as [Heq|Hin].
    + destruct (Z.max_spec x y) as [[_ Hm]|[_ Hm]].
      * right. replace m with y by lia. apply list_elem_of_here.
      * left. lia.
    + right. now apply list_elem_of_further.
Qed.

Lemma series_max_spec (xs : list Z) :
  xs <> [] ->
  exists m, series_max xs = Returns m
            /\ Forall (fun y => y <= m) xs /\ m ∈ xs.
Proof.
  destruct xs as [|x xs]; [done|]. intros _.
  exists (foldl Z.max x xs). cbn [series_max].
  destruct (foldl_max_spec xs x) as (Hle & Hall & Hin).
  split; [reflexivity|]. split; [now constructor|].
  destruct Hin as [->|Hin]; [apply list_elem_of_here|].
  now apply list_elem_of_further.
Qed.

(** C6.  The column [sequence_col] that lines 22-40 of [aa_encoding]
    build from a column of strings.  With sentinels and an integer pad
    [n], every sequence is wrapped and right-padded with ['_'] to width
    [n + 2] (a wrapped sequence that is longer keeps its length).  With
    [pad = True], every sequence is right-padded to the maximum length
    found in the column, which all of them then have.  With a falsy pad
    ([False], or the integer [0]) the sequences are left as they are. *)
Theorem aa_encoding_padding
    (read_col : string) (ohe_col label_col length_col : option string)
    (col : list string) (adata : AnnData.t) :
  obs adata !! read_col = Some (ColStr col) ->
  is_None label_col && is_None ohe_col = false ->
  truthy length_col <> Some read_col ->
  let sequence_col_of pad start_end_symbol :=
    ((prepare read_col ohe_col label_col length_col pad start_end_symbol
      ≫= sequence_col read_col) adata).1 in
  (forall n : Z,
      sequence_col_of (PadInt n) true
      = Returns (map (fun s => ljust (n + 2) "_" (wrap s)) col)
      /\ Forall (fun s => len (ljust (n + 2) "_" (wrap s))
                          = Z.max (len s + 2) (n + 2)) col)
  /\ (forall ses, col <> [] ->
      exists pad_len,
        Forall (fun s => len s <= pad_len) (sentinels ses col)
        /\ Exists (fun s => len s = pad_len) (sentinels ses col)
        /\ sequence_col_of (PadBool true) ses
           = Returns (map (ljust pad_len "_") (sentinels ses col))
        /\ Forall (fun s => len (ljust pad_len "_" s) = pad_len)
                  (sentinels ses col))
  /\ (forall ses,
        sequence_col_of (PadBool false) ses = Returns (sentinels ses col)
        /\ sequence_col_of (PadInt 0) ses = Returns (sentinels ses col)).
Proof.
  intros Hrc Hout Hlc run.
  assert (forall pad ses,
    run pad ses
    = (sequence_col read_col (effective_pad ses pad)
         (prepared read_col length_col ses col adata)).1) as Hrun.
  { intros pad ses. unfold run, mbind at 1, M_bind at 1.
    now rewrite (prepare_run _ _ _ _ _ _ col). }
  assert (forall ses,
    read_str read_col (prepared read_col length_col ses col adata)
    = (Returns (sentinels ses col),
       prepared read_col length_col ses col adata)) as Hread.
  { intros ses. apply read_str_ok. now apply prepared_read. }
  split; [|split].
  - intros n. split.
    + rewrite Hrun. cbn [effective_pad sequence_col].
      unfold mbind, M_bind. rewrite Hread. cbn [fst mret M_ret sentinels].
      now rewrite map_map.
    + apply Forall_forall. intros s _. now rewrite len_ljust, len_wrap.
  - intros ses Hne.
    destruct (series_max_spec (map len (sentinels ses col)))
      as (m & Hm & Hall & Hin).
    { destruct ses, col; cbn; done. }
    exists m.
    assert (Forall (fun s => len s <= m) (sentinels ses col)) as Hall'.
    { apply Forall_forall. intros s Hs.
      rewrite Forall_forall in Hall. apply Hall.
      apply list_elem_of_fmap. now exists s. }
    split; [exact Hall'|]. split; [|split].
    + apply list_elem_of_fmap in Hin as (s & Hs & Hin).
      apply Exists_exists. now exists s.
    + rewrite Hrun. replace (effective_pad ses (PadBool true))
        with (PadBool true) by now destruct ses.
      cbn [sequence_col]. unfold mbind, M_bind. rewrite Hread.
      unfold lift. now rewrite Hm.
    + eapply Forall_impl; [exact Hall'|]. cbn. intros s Hs.
      rewrite len_ljust. lia.
  - intros ses. split.
    + rewrite Hrun. replace (effective_pad ses (PadBool false))
        with (PadBool false) by now destruct ses.
      cbn [sequence_col]. now rewrite Hread.
    + rewrite Hrun.
      assert (forall w, w <= (if ses then 2 else 0) ->
                map (ljust w "_") (sentinels ses col) = sentinels ses col)
        as Hshort.
      { intros w Hw. rewrite <- (map_id (sentinels ses col)) at 2.
        apply map_ext_in. intros s Hs. apply ljust_short.
        destruct ses; cbn [sentinels] in Hs.
        - apply in_map_iff in Hs as (s0 & <- & _). rewrite len_wrap.
          pose proof (len_nonneg s0). lia.
        - pose proof (len_nonneg s). lia. }
      destruct ses; cbn [effective_pad sequence_col];
        unfold mbind, M_bind; rewrite Hread; cbn [fst mret M_ret];
        rewrite Hshort; done.
Qed.


(** *** The vocabulary *)

#[local] Instance char_le_trans : Transitive char_le.
Proof. unfold char_le. intros a b c. lia. Qed.

#[local] Instance char_le_total : Total char_le.
Proof. unfold char_le. intros a b. lia. Qed.

#[local] Instance char_le_antisymm : AntiSymm (=) char_le.
Proof.
  unfold char_le. intros a b Hab Hba.
  rewrite <- (ascii_N_embedding a), <- (ascii_N_embedding b).
  f_equal. lia.
Qed.

Lemma char_le_neq_lt a b : char_le a b -> a <> b -> char_lt a b.
Proof.
  unfold char_le, char_lt. intros Hle Hne.
  destruct (decide (N_of_ascii a = N_of_ascii b)) as [Heq|]; [|lia].
  exfalso. apply Hne.
  rewrite <- (ascii_N_embedding a), <- (ascii_N_embedding b). now f_equal.
Qed.

Lemma sorted_nodup_strict (l : list ascii) :
  StronglySorted char_le l -> NoDup l -> StronglySorted char_lt l.
Proof.
  induction 1 as [|a l Hs IH Hall]; intros Hnd; [constructor|].
  apply NoDup_cons in Hnd as [Hnotin Hnd].
  constructor; [now apply IH|].
  rewrite Forall_forall in Hall |- *. intros b Hb.
  apply char_le_neq_lt; [now apply Hall|]. intros ->. now apply Hnotin.
Qed.

Lemma unique_aa_tokens_perm (aa_tokens : list (list ascii)) (l : list ascii) :
  NoDup l -> (forall c, c ∈ l <-> c ∈ concat aa_tokens) ->
  merge_sort char_le l = unique_aa_tokens aa_tokens.
Proof.
  intros Hnd Hl. unfold unique_aa_tokens.
  apply (Sorted_unique char_le); try apply Sorted_merge_sort; try apply _.
  rewrite !merge_sort_Permutation.
  apply NoDup_Permutation; [exact Hnd|apply NoDup_elements|].
  intros c. rewrite Hl, elem_of_elements, elem_of_list_to_set. done.
Qed.

Lemma unique_aa_tokens_elem (aa_tokens : list (list ascii)) c :
  c ∈ unique_aa_tokens aa_tokens <-> c ∈ concat aa_tokens.
Proof.
  unfold unique_aa_tokens.
  rewrite merge_sort_Permutation, elem_of_elements, elem_of_list_to_set. done.
Qed.

Lemma unique_aa_tokens_nodup (aa_tokens : list (list ascii)) :
  NoDup (unique_aa_tokens aa_tokens).
Proof.
  unfold unique_aa_tokens. rewrite merge_sort_Permutation.
  apply NoDup_elements.
Qed.

Lemma foldl_insert_lookup (l : list (Z * ascii)) (m0 : vocab) c id_ :
  NoDup (l.*2) ->
  foldl (fun m '(id_, aa) => <[aa := id_]> m) m0 l !! c = Some id_
  <-> (id_, c) ∈ l \/ ((c ∉ l.*2) /\ m0 !! c = Some id_).
Proof.
  revert m0. induction l as [|[i a] l IH]; intros m0 Hnd; cbn [foldl].
  - split; [intros H; right; split; [apply not_elem_of_nil|exact H]|].
    intros [H|[_ H]]; [now apply elem_of_nil in H|exact H].
  - cbn in Hnd. apply NoDup_cons in Hnd as [Hnotin Hnd].
    rewrite IH by exact Hnd. cbn [fmap list_fmap snd].
    rewrite elem_of_cons, not_elem_of_cons.
    destruct (decide (a = c)) as [->|Hne].
    + rewrite lookup_insert_eq. split.
      * intros [Hin|[_ [= ->]]]; [|left; now left].
        exfalso. apply Hnotin. apply list_elem_of_fmap. now exists (id_, c).
      * intros [[[= ->]|Hin]|[[Hc _] _]]; [|now left|done].
        right. split; [exact Hnotin|reflexivity].
    + rewrite lookup_insert_ne by exact Hne. split.
      * intros [Hin|[Hc Hm]]; [left; now right|right; repeat split; auto].
      * intros [[[= _ Hac]|Hin]|[[_ Hc] Hm]];
          [congruence|now left|right; split; auto].
Qed.

Lemma enumerate_vocab_lookup (u : list ascii) c id_ :
  NoDup u ->
  enumerate_vocab u !! c = Some id_
  <-> exists i, u !! i = Some c /\ id_ = Z.of_nat i.
Proof.
  intros Hnd. unfold enumerate_vocab.
  assert ((imap (fun i aa => (Z.of_nat i, aa)) u).*2 = u) as Hsnd.
  { apply list_eq. intros i.
    rewrite list_lookup_fmap, list_lookup_imap.
    now destruct (u !! i). }
  rewrite foldl_insert_lookup by now rewrite Hsnd.
  rewrite elem_of_lookup_imap, lookup_empty. split.
  - intros [(i & y & [= -> ->] & Hi)|[_ [=]]]. now exists i.
  - intros (i & Hi & ->). left. now exists i, c.
Qed.

(** C7.  The vocabulary that [aa_encoding] builds when none is
    supplied.  The list [unique_aa_tokens] is strictly increasing in code
    point and holds exactly the characters observed; the mapping gives the
    character at position [i] of that list the id [i] and nothing else;
    whatever order the set of characters is enumerated in, sorting gives
    the same list; two corpora with the same characters get the same
    mapping (so does one corpus encoded twice); and this mapping is what a
    run that returns leaves in [adata.uns['aa_to_id']]. *)
Theorem aa_encoding_vocabulary_sorted (aa_tokens : list (list ascii)) :
  let unique := unique_aa_tokens aa_tokens in
  StronglySorted char_lt unique
  /\ (forall c, c ∈ unique <-> c ∈ concat aa_tokens)
  /\ (forall c id_,
        enumerate_vocab unique !! c = Some id_
        <-> exists i, unique !! i = Some c /\ id_ = Z.of_nat i)
  /\ (forall enumeration,
        NoDup enumeration ->
        (forall c, c ∈ enumeration <-> c ∈ concat aa_tokens) ->
        merge_sort char_le enumeration = unique)
  /\ (forall aa_tokens',
        (forall c, c ∈ concat aa_tokens' <-> c ∈ concat aa_tokens) ->
        enumerate_vocab (unique_aa_tokens aa_tokens')
        = enumerate_vocab unique)
  /\ (forall ohe_col label_col sequence_col adata adata',
        aa_tokens = map chars sequence_col ->
        write_encoding ohe_col label_col None sequence_col adata
        = (Returns tt, adata') ->
        uns adata' !! "aa_to_id"%string = Some (enumerate_vocab unique)).
Proof.
  intros unique. split; [|split; [|split; [|split; [|split]]]].
  - apply sorted_nodup_strict; [|apply unique_aa_tokens_nodup].
    apply StronglySorted_merge_sort; apply _.
  - apply unique_aa_tokens_elem.
  - intros c id_. apply enumerate_vocab_lookup, unique_aa_tokens_nodup.
  - intros l Hnd Hl. now apply unique_aa_tokens_perm.
  - intros aa_tokens' Hsame. f_equal.
    unfold unique, unique_aa_tokens. do 2 f_equal.
    apply set_eq. intros c. rewrite !elem_of_list_to_set. apply Hsame.
  - intros ohe lab seqs a a' -> Hrun. unfold write_encoding in Hrun.
    apply bind_returns in Hrun as (token_ids & a1 & _ & Hrun).
    apply bind_returns in Hrun as (? & a2 & _ & Hrun).
    apply bind_returns in Hrun as (? & a3 & _ & Hrun).
    injection Hrun as <-. cbn. apply lookup_insert_eq.
Qed.

(** Padding the demonstration column to [6 + 2] characters. *)
Lemma aa_encoding_padding_witness :
  ((prepare "cdr3" None (Some "label"%string) (Some "length"%string)
      (PadInt 6) true ≫= sequence_col "cdr3") Demo.adata).1
  = Returns ["<CASSL>_"%string; "<CAS>___"%string].
Proof.
  refine (proj1 (proj1 (aa_encoding_padding "cdr3" None
            (Some "label"%string) (Some "length"%string)
            ["CASSL"%string; "CAS"%string] Demo.adata _ _ _) 6)).
  - reflexivity.
  - reflexivity.
  - discriminate.
Defined.

(** The demonstration column after one call. *)
Lemma aa_encoding_wraps_read_col_in_place_witness :
  obs (aa_encoding "cdr3" None (Some "label"%string) (Some "length"%string)
         (PadBool true) None true Demo.adata).2 !! "cdr3"%string
  = Some (ColStr ["<CASSL>"%string; "<CAS>"%string]).
Proof.
  refine (proj1 (aa_encoding_wraps_read_col_in_place "cdr3" None
            (Some "label"%string) (Some "length"%string) (PadBool true) None
            ["CASSL"%string; "CAS"%string] Demo.adata _ _ _ _ _)).
  - reflexivity.
  - reflexivity.
  - discriminate.
  - discriminate.
  - discriminate.
Defined.

(** The vocabulary of the demonstration corpus, padded to the longest
    sequence. *)
Lemma unique_aa_tokens_demo :
  unique_aa_tokens (map chars ["<CASSL>"%string; "<CAS>__"%string])
  = ["<"; ">"; "A"; "C"; "L"; "S"; "_"]%char.
Proof. vm_compute. reflexivity. Qed.

End UtilsProps.

(** ** The start-token mask *)

Module MaskProps.
Import Torch.

Lemma keep_nil {A} f : keep f (@nil A) = [].
Proof. reflexivity. Qed.

Lemma keep_cons {A} f (x : A) l :
  keep f (x :: l) = (if f 0%nat then [x] else []) ++ keep (f ∘ S) l.
Proof.
  unfold keep. cbn [imap zip zip_with]. rewrite filter_cons. cbn [snd].
  destruct (f 0%nat); cbn; case_decide; try done.
Qed.

Lemma keep_app {A} f (l1 l2 : list A) :
  keep f (l1 ++ l2) = keep f l1 ++ keep (fun k => f (length l1 + k)%nat) l2.
Proof.
  revert f. induction l1 as [|x l1 IH]; intros f; [reflexivity|].
  cbn [app length]. rewrite !keep_cons, IH, <- app_assoc. reflexivity.
Qed.

Lemma keep_ext {A} f g (l : list A) :
  (forall k, (k < length l)%nat -> f k = g k) -> keep f l = keep g l.
Proof.
  revert f g. induction l as [|x l IH]; intros f g H; [reflexivity|].
  rewrite !keep_cons, (H 0%nat) by (cbn; lia).
  f_equal. apply IH. intros k Hk. apply H. cbn. lia.
Qed.

Lemma keep_all {A} f (l : list A) :
  (forall k, (k < length l)%nat -> f k = true) -> keep f l = l.
Proof.
  revert f. induction l as [|x l IH]; intros f H; [reflexivity|].
  rewrite keep_cons, (H 0%nat) by (cbn; lia). cbn [app].
  f_equal. apply IH. intros k Hk. apply H. cbn. lia.
Qed.

Lemma keep_concat {A} f (L : nat) (rows : list (list A)) :
  Forall (fun r => length r = L) rows ->
  (forall k, f (L + k)%nat = f k) ->
  keep f (concat rows) = concat (map (keep f) rows).
Proof.
  intros Hrows Hper. induction Hrows as [|r rows Hr _ IH]; [reflexivity|].
  cbn [concat map]. rewrite keep_app, Hr. f_equal.
  rewrite <- IH. apply keep_ext. intros k _. apply Hper.
Qed.

Lemma keep_row {A} f (row : list A) :
  (2 <= length row)%nat ->
  (forall k, (k < length row)%nat ->
     f k = negb (Nat.eqb k 0 || Nat.eqb k (length row / 2))) ->
  keep f row = without_chain_starts row.
Proof.
  intros Hlen Hf. unfold without_chain_starts.
  assert (1 <= length row / 2 < length row)%nat as Hh.
  { split.
    - apply Nat.div_le_lower_bound; lia.
    - apply Nat.div_lt; lia. }
  remember (length row / 2)%nat as h eqn:Eh. clear Eh.
  rewrite <- (take_drop h row) at 1.
  rewrite keep_app. f_equal.
  - destruct row as [|x row]; [cbn in Hlen; lia|].
    destruct h as [|h']; [lia|]. cbn [take drop].
    rewrite keep_cons, Hf by (cbn [length]; lia).
    cbn [Nat.eqb orb negb app]. rewrite drop_0.
    apply keep_all. intros k Hk. rewrite length_take in Hk.
    unfold compose. cbn [length] in Hh. rewrite Hf by (cbn [length]; lia).
    destruct (Nat.eqb_spec (S k) 0); [lia|].
    destruct (Nat.eqb_spec (S k) (S h')); [lia|]. reflexivity.
  - rewrite length_take, Nat.min_l by lia.
    pose proof (length_drop row h) as Hd.
    destruct (drop h row) as [|y rest]; cbn [length] in Hd; [lia|].
    rewrite keep_cons, Nat.add_0_r, Hf by lia.
    rewrite Nat.eqb_refl, orb_true_r. cbn [negb app drop]. rewrite drop_0.
    apply keep_all. intros k Hk. unfold compose.
    rewrite Hf by lia.
    destruct (Nat.eqb_spec (h + S k) 0); [lia|].
    destruct (Nat.eqb_spec (h + S k) h); [lia|]. reflexivity.
Qed.

Lemma lookup_without_chain_starts {A} (row : list A) (j : nat) :
  (2 <= length row)%nat ->
  without_chain_starts row !! j
  = row !! (if (j <? length row / 2 - 1)%nat then S j else S (S j)).
Proof.
  intros Hlen. unfold without_chain_starts.
  assert (1 <= length row / 2 < length row)%nat as Hh.
  { split.
    - apply Nat.div_le_lower_bound; lia.
    - apply Nat.div_lt; lia. }
  remember (length row / 2)%nat as h eqn:Eh. clear Eh.
  destruct (Nat.ltb_spec j (h - 1)) as [Hj|Hj].
  - rewrite lookup_app_l by (rewrite length_drop, length_take; lia).
    rewrite lookup_drop, lookup_take_lt by lia. f_equal.
  - rewrite lookup_app_r by (rewrite length_drop, length_take; lia).
    rewrite length_drop, length_take, !lookup_drop. f_equal. lia.
Qed.

Lemma length_without_chain_starts {A} (row : list A) :
  (2 <= length row)%nat ->
  length (without_chain_starts row) = (length row - 2)%nat.
Proof.
  intros Hlen. unfold without_chain_starts.
  assert (1 <= length row / 2 < length row)%nat as Hh.
  { split.
    - apply Nat.div_le_lower_bound; lia.
    - apply Nat.div_lt; lia. }
  rewrite length_app, !length_drop, length_take. lia.
Qed.


Lemma masked_data {A} (data : list A) (hit : nat -> bool) :
  map fst (filter (fun p => snd p = true)
             (zip data
                (imap (fun k x => if hit k then false else x)
                      (map (fun _ => true) data))))
  = keep (fun k => negb (hit k)) data.
Proof.
  unfold keep. do 3 f_equal. apply list_eq. intros k.
  rewrite !list_lookup_imap, list_lookup_fmap.
  destruct (data !! k); cbn; [|reflexivity]. now destruct (hit k).
Qed.

Lemma set_columns_run {A} (tcr : dense A) b L rest :
  shape tcr = b :: L :: rest -> (2 <= L)%nat ->
  set_columns (ones_like_bool tcr) [0; Z.of_nat L / 2] false
  = Returns (start_mask tcr L rest).
Proof.
  intros Hsh HL. unfold set_columns, ones_like_bool, start_mask.
  cbn [shape data]. rewrite Hsh. cbn [forallb].
  assert (0 <= Z.of_nat L / 2 < Z.of_nat L) as Hhalf.
  { split; [apply Z.div_pos; lia|apply Z.div_lt_upper_bound; lia]. }
  replace ((- Z.of_nat L <=? 0) && (0 <? Z.of_nat L)) with true
    by (symmetry; apply andb_true_iff; split; [apply Z.leb_le|apply Z.ltb_lt];
        lia).
  replace ((- Z.of_nat L <=? Z.of_nat L / 2)
           && (Z.of_nat L / 2 <? Z.of_nat L)) with true
    by (symmetry; apply andb_true_iff; split; [apply Z.leb_le|apply Z.ltb_lt];
        lia).
  cbn [andb]. do 2 f_equal. apply imap_ext. intros k x _.
  unfold start_token_mask. now rewrite negb_involutive.
Qed.

Lemma masked_select_run {A} (tcr : dense A) L rest :
  masked_select tcr (start_mask tcr L rest)
  = Returns (let kept := keep (start_token_mask (Z.of_nat L)
                                 (Z.of_nat (numel rest))) (data tcr) in
             Dense [length kept] kept).
Proof.
  unfold masked_select, start_mask. cbn [shape data].
  rewrite decide_True by reflexivity. rewrite masked_data.
  cbn zeta. do 2 f_equal.
  - f_equal. f_equal. apply keep_ext. intros k _. apply negb_involutive.
  - apply keep_ext. intros k _. apply negb_involutive.
Qed.

Lemma start_token_mask_periodic (L k : nat) :
  (1 <= L)%nat ->
  start_token_mask (Z.of_nat L) 1 (L + k) = start_token_mask (Z.of_nat L) 1 k.
Proof.
  intros HL. unfold start_token_mask. cbn [existsb].
  rewrite !Z.div_1_r, Nat2Z.inj_add.
  replace (Z.of_nat L + Z.of_nat k) with (Z.of_nat k + 1 * Z.of_nat L) by lia.
  now rewrite Z_mod_plus_full.
Qed.

Lemma start_token_mask_row (L k : nat) :
  (2 <= L)%nat -> (k < L)%nat ->
  start_token_mask (Z.of_nat L) 1 k
  = negb (Nat.eqb k 0 || Nat.eqb k (L / 2)).
Proof.
  intros HL Hk. unfold start_token_mask. cbn [existsb].
  rewrite Z.div_1_r, orb_false_r.
  assert (0 <= Z.of_nat L / 2 < Z.of_nat L) as Hhalf.
  { split; [apply Z.div_pos; lia|apply Z.div_lt_upper_bound; lia]. }
  rewrite !Z.mod_small by lia.
  f_equal. f_equal.
  - destruct (Z.eqb_spec (Z.of_nat k) 0), (Nat.eqb_spec k 0); lia || reflexivity.
  - change 2 with (Z.of_nat 2). rewrite <- Nat2Z.inj_div.
    destruct (Z.eqb_spec (Z.of_nat k) (Z.of_nat (L / 2))),
             (Nat.eqb_spec k (L / 2)); lia || reflexivity.
Qed.

Lemma keep_rows (L : nat) (rows : list (list Z)) :
  (2 <= L)%nat -> Forall (fun r => length r = L) rows ->
  keep (start_token_mask (Z.of_nat L) 1) (concat rows)
  = concat (map without_chain_starts rows).
Proof.
  intros HL Hrows. rewrite (keep_concat _ L) by
    (try exact Hrows; intros k; apply start_token_mask_periodic; lia).
  f_equal. apply map_ext_in. intros r Hr.
  rewrite Forall_forall in Hrows.
  assert (length r = L) as Hlen by (apply Hrows, list_elem_of_In, Hr).
  apply keep_row; [lia|]. intros k Hk. rewrite Hlen in *.
  now apply start_token_mask_row.
Qed.

End MaskProps.

Module LossProps.
Import Torch MoE MaskProps.

Lemma calculate_loss_run (self : MoEModel) rp0 rp1 rna tp0 tp1 tcr
    b0 l0 v0 b1 l1 v1 b L rest w0 w1 :
  shape tp0 = b0 :: l0 :: v0 -> shape tp1 = b1 :: l1 :: v1 ->
  shape tcr = b :: L :: rest ->
  loss_weights self !! 0%nat = Some w0 ->
  loss_weights self !! 1%nat = Some w1 ->
  calculate_loss self [rp0; rp1] rna [tp0; tp1] tcr
  = Returns
      (((loss_function_rna self rp0 rna + loss_function_rna self rp1 rna)
        * (half * w0))%Qc,
       ((loss_function_tcr self (Dense ((b0 * l0)%nat :: v0) (data tp0))
           (tcr_target l0 tcr)
         + loss_function_tcr self (Dense ((b1 * l1)%nat :: v1) (data tp1))
             (tcr_target l0 tcr))
        * (half * w1))%Qc).
Proof.
  intros H0 H1 Ht Hw0 Hw1.
  unfold calculate_loss, py_index, shape_at, flatten_end1, tcr_target.
  assert (forall (x y : nat) l, (x :: y :: l) !! 1%nat = Some y) as Hidx
    by reflexivity.
  cbn [lookup list_lookup ones_like_bool shape mbind outcome_bind].
  rewrite Hw0. cbn [mbind outcome_bind].
  rewrite H0, Ht, !Hidx. cbn [mbind outcome_bind].
  destruct (Z.eqb_spec (Z.of_nat l0) (Z.of_nat L - 2)) as [Heq|Hne].
  - rewrite (set_columns_run tcr b L rest) by (try exact Ht; lia).
    cbn [mbind outcome_bind]. rewrite masked_select_run, H1, Hw1.
    reflexivity.
  - rewrite H1, Hw1. reflexivity.
Qed.


(** C2.  [calculate_loss] on a ground truth [tcr] of [length rows] rows
    of [L] tokens.  When the first TCR reconstruction has sequence length
    [L - 2], both reconstructions are compared with the ground truth from
    which a boolean mask has removed, in every row, the positions [0] and
    [L // 2]: what is left of a row is its first half without its first
    token followed by its second half without its first token, and
    position [j] of it is position [j + 1] of the row before the middle
    and [j + 2] after it.  In every other case, equal lengths among them,
    both are compared with the whole flattened ground truth. *)
Theorem calculate_loss_start_token_mask (self : MoEModel)
    (rp0 rp1 rna tp0 tp1 : dense Qc) (rows : list (list Z)) (L : nat)
    (b0 l0 : nat) (v0 : list nat) (b1 l1 : nat) (v1 : list nat)
    (w0 w1 : Qc) :
  Forall (fun r => length r = L) rows ->
  shape tp0 = b0 :: l0 :: v0 -> shape tp1 = b1 :: l1 :: v1 ->
  loss_weights self !! 0%nat = Some w0 ->
  loss_weights self !! 1%nat = Some w1 ->
  let tcr := Dense [length rows; L] (concat rows) in
  let flat0 := Dense ((b0 * l0)%nat :: v0) (data tp0) in
  let flat1 := Dense ((b1 * l1)%nat :: v1) (data tp1) in
  let losses target :=
    Returns
      (((loss_function_rna self rp0 rna + loss_function_rna self rp1 rna)
        * (half * w0))%Qc,
       ((loss_function_tcr self flat0 target
         + loss_function_tcr self flat1 target) * (half * w1))%Qc) in
  let kept := concat (map without_chain_starts rows) in
  (Z.of_nat l0 = Z.of_nat L - 2 ->
     calculate_loss self [rp0; rp1] rna [tp0; tp1] tcr
     = losses (flatten (Dense [length kept] kept))
     /\ length kept = (length rows * l0)%nat
     /\ forall r j, r ∈ rows ->
          without_chain_starts r !! j
          = r !! (if (j <? L / 2 - 1)%nat then S j else S (S j)))
  /\ (Z.of_nat l0 <> Z.of_nat L - 2 ->
      calculate_loss self [rp0; rp1] rna [tp0; tp1] tcr
      = losses (flatten tcr)
      /\ data (flatten tcr) = concat rows).
Proof.
  intros Hrows H0 H1 Hw0 Hw1 tcr flat0 flat1 losses kept.
  pose proof (calculate_loss_run self rp0 rp1 rna tp0 tp1 tcr
                b0 l0 v0 b1 l1 v1 (length rows) L [] w0 w1
                H0 H1 eq_refl Hw0 Hw1) as Hrun.
  unfold tcr_target in Hrun. cbn [shape tcr data numel foldr] in Hrun.
  split; intros Hlen.
  - apply Z.eqb_eq in Hlen as Heqb. rewrite Heqb in Hrun.
    assert (2 <= L)%nat as HL by lia.
    change (Z.of_nat 1) with 1 in Hrun.
    rewrite (keep_rows L rows HL Hrows) in Hrun.
    split; [exact Hrun|]. split.
    + unfold kept. clear Hrun. induction Hrows as [|r rows' Hr _ IH].
      * reflexivity.
      * cbn [map concat length]. rewrite length_app, IH.
        rewrite length_without_chain_starts by lia. lia.
    + intros r j Hr. rewrite Forall_forall in Hrows.
      rewrite <- (Hrows r Hr). apply lookup_without_chain_starts.
      rewrite (Hrows r Hr). exact HL.
  - apply Z.eqb_neq in Hlen. rewrite Hlen in Hrun. now split.
Qed.

Lemma half_spec : half = (/ 2)%Qc.
Proof. apply Qc_decomp. reflexivity. Qed.

Lemma half_sum (a b w : Qc) : ((a + b) * (half * w) = mean2 a b * w)%Qc.
Proof. unfold mean2. rewrite half_spec. field. discriminate. Qed.

Lemma half_mean (a b : Qc) : (half * (a + b) = mean2 a b)%Qc.
Proof. unfold mean2. rewrite half_spec. field. discriminate. Qed.

(** C3, amended.  For each modality [calculate_loss] returns the sum of
    the two reconstruction losses multiplied by 0.5 and by the modality's
    weight, which is the mean of the two losses multiplied by the weight:
    [loss_weights[0]] for RNA, [loss_weights[1]] for TCR.  Both RNA
    reconstructions are compared with the RNA input; both TCR
    reconstructions, flattened over their first two axes, are compared
    with one and the same ground truth, the token matrix without the
    start-token columns when the reconstructions are two tokens shorter,
    and the whole flattened token matrix otherwise. *)
Theorem calculate_loss_weighted_mean (self : MoEModel)
    (rp0 rp1 rna tp0 tp1 : dense Qc) (tcr : dense Z)
    (b0 l0 : nat) (v0 : list nat) (b1 l1 : nat) (v1 : list nat)
    (b L : nat) (rest : list nat) (w0 w1 : Qc) :
  shape tp0 = b0 :: l0 :: v0 -> shape tp1 = b1 :: l1 :: v1 ->
  shape tcr = b :: L :: rest ->
  loss_weights self !! 0%nat = Some w0 ->
  loss_weights self !! 1%nat = Some w1 ->
  let target :=
    if Z.of_nat l0 =? Z.of_nat L - 2 then
      let kept := keep (start_token_mask (Z.of_nat L)
                          (Z.of_nat (numel rest))) (data tcr) in
      Dense [length kept] kept
    else Dense [numel (shape tcr)] (data tcr) in
  let flat0 := Dense ((b0 * l0)%nat :: v0) (data tp0) in
  let flat1 := Dense ((b1 * l1)%nat :: v1) (data tp1) in
  flatten_end1 tp0 = Returns flat0 /\ flatten_end1 tp1 = Returns flat1 /\
  target = tcr_target l0 tcr /\
  calculate_loss self [rp0; rp1] rna [tp0; tp1] tcr
  = Returns
      ((mean2 (loss_function_rna self rp0 rna)
              (loss_function_rna self rp1 rna) * w0)%Qc,
       (mean2 (loss_function_tcr self flat0 target)
              (loss_function_tcr self flat1 target) * w1)%Qc).
Proof.
  intros H0 H1 Ht Hw0 Hw1 target flat0 flat1.
  assert (target = tcr_target l0 tcr) as Htarget.
  { unfold target, tcr_target, flatten. rewrite Ht.
    destruct (Z.of_nat l0 =? Z.of_nat L - 2); [|reflexivity].
    cbn [shape data numel foldr]. now rewrite Nat.mul_1_r. }
  unfold flatten_end1. rewrite H0, H1. do 2 (split; [reflexivity|]).
  split; [exact Htarget|].
  rewrite (calculate_loss_run self rp0 rp1 rna tp0 tp1 tcr
             b0 l0 v0 b1 l1 v1 b L rest w0 w1) by assumption.
  rewrite Htarget. unfold flat0, flat1. now rewrite !half_sum.
Qed.

Lemma tadd_same_shape (a b : dense Qc) :
  shape a = shape b ->
  tadd a b = Returns (Dense (shape a) (zip_with Qcplus (data a) (data b))).
Proof. intros H. unfold tadd. now rewrite decide_True. Qed.

Lemma scaled_sum (xs ys : list Qc) :
  map (Qcmult half) (zip_with Qcplus xs ys) = zip_with mean2 xs ys.
Proof.
  revert ys. induction xs as [|x xs IH]; intros [|y ys]; try reflexivity.
  cbn [zip_with map]. now rewrite IH, half_mean.
Qed.

(** C4, amended.  [calculate_kld_loss] returns the sum of the two
    per-modality KL terms multiplied by 0.5, by [loss_weights[2]] and by
    the annealing factor of the epoch, which is the mean of the two terms
    multiplied by the weight and the factor; and it returns the fused
    mean, whose entries are the means of the entries of [mu[0]] and
    [mu[1]]. *)
Theorem calculate_kld_loss_weighted_mean (self : MoEModel)
    (mu0 mu1 logvar0 logvar1 : dense Qc) (epoch : Z) (w2 : Qc) :
  shape mu0 = shape mu1 ->
  loss_weights self !! 2%nat = Some w2 ->
  calculate_kld_loss self [mu0; mu1] [logvar0; logvar1] epoch
  = Returns
      ((mean2 (loss_function_kld self mu0 logvar0)
              (loss_function_kld self mu1 logvar1)
        * w2 * get_kl_annealing_factor self epoch)%Qc,
       Dense (shape mu0) (zip_with mean2 (data mu0) (data mu1))).
Proof.
  intros Hsh Hw2. unfold calculate_kld_loss, py_index.
  cbn [lookup list_lookup mbind outcome_bind].
  change ([mu0; mu1] !! 0%nat) with (Some mu0).
  change ([mu0; mu1] !! 1%nat) with (Some mu1).
  change ([logvar0; logvar1] !! 0%nat) with (Some logvar0).
  change ([logvar0; logvar1] !! 1%nat) with (Some logvar1).
  cbn [mbind outcome_bind]. rewrite Hw2. cbn [mbind outcome_bind].
  rewrite tadd_same_shape by exact Hsh. cbn [mbind outcome_bind mret outcome_ret].
  unfold tscale. cbn [shape data]. rewrite scaled_sum.
  do 2 f_equal. rewrite Qcmult_assoc, half_sum. ring.
Qed.

(** C5.  For two latents of one shape, [get_latent_from_z] returns the
    tensor of that shape whose entries are the unweighted means
    [0.5 * (A + B)] of the entries of the two, and fusing [[A, B]] gives
    what fusing [[B, A]] gives. *)
Theorem get_latent_from_z_symmetric (A B : dense Qc) :
  shape A = shape B ->
  get_latent_from_z [A; B]
  = Returns (Dense (shape A) (zip_with mean2 (data A) (data B)))
  /\ get_latent_from_z [A; B] = get_latent_from_z [B; A].
Proof.
  intros Hsh. unfold get_latent_from_z, py_index.
  change ([A; B] !! 0%nat) with (Some A).
  change ([A; B] !! 1%nat) with (Some B).
  change ([B; A] !! 0%nat) with (Some B).
  change ([B; A] !! 1%nat) with (Some A).
  cbn [mbind outcome_bind mret outcome_ret].
  rewrite !tadd_same_shape by congruence.
  cbn [mbind outcome_bind mret outcome_ret]. unfold tscale. cbn [shape data].
  rewrite !scaled_sum. split; [reflexivity|].
  rewrite Hsh. do 2 f_equal.
  generalize (data A) (data B). intros xs.
  induction xs as [|x xs IH]; intros [|y ys]; try reflexivity.
  cbn [zip_with]. rewrite IH. f_equal. unfold mean2.
  now rewrite (Qcplus_comm x y).
Qed.

(** The mask on the demonstration input: of the row [0 5 6 0 7 8] the
    tokens [5 6 7 8] are compared. *)
Lemma calculate_loss_start_token_mask_witness :
  calculate_loss Demo.model [Demo.rna_pred0; Demo.rna_pred1] Demo.rna
    [Demo.tcr_pred0; Demo.tcr_pred1] Demo.tcr
  = Returns
      (((Demo.sum_sq_error Demo.rna_pred0 Demo.rna
         + Demo.sum_sq_error Demo.rna_pred1 Demo.rna) * (half * 1))%Qc,
       ((Demo.token_count (Dense [4; 2]%nat (data Demo.tcr_pred0))
           (Dense [4]%nat [5; 6; 7; 8])
         + Demo.token_count (Dense [4; 2]%nat (data Demo.tcr_pred1))
             (Dense [4]%nat [5; 6; 7; 8])) * (half * 1))%Qc).
Proof.
  refine (proj1 (proj1 (calculate_loss_start_token_mask Demo.model
            Demo.rna_pred0 Demo.rna_pred1 Demo.rna
            Demo.tcr_pred0 Demo.tcr_pred1 Demo.tcr_rows 6
            1 4 [2%nat] 1 4 [2%nat] 1%Qc 1%Qc _ _ _ _ _) _)).
  - repeat constructor.
  - reflexivity.
  - reflexivity.
  - reflexivity.
  - reflexivity.
  - reflexivity.
Defined.

(** The losses of the demonstration input are weighted means; the TCR
    reconstructions are compared with the tokens [5 6 7 8]. *)
Lemma calculate_loss_weighted_mean_witness :
  calculate_loss Demo.model [Demo.rna_pred0; Demo.rna_pred1] Demo.rna
    [Demo.tcr_pred0; Demo.tcr_pred1] Demo.tcr
  = Returns
      ((mean2 (Demo.sum_sq_error Demo.rna_pred0 Demo.rna)
              (Demo.sum_sq_error Demo.rna_pred1 Demo.rna) * 1)%Qc,
       (mean2 (Demo.token_count (Dense [4; 2]%nat (data Demo.tcr_pred0))
                 (Dense [4]%nat [5; 6; 7; 8]))
              (Demo.token_count (Dense [4; 2]%nat (data Demo.tcr_pred1))
                 (Dense [4]%nat [5; 6; 7; 8])) * 1)%Qc).
Proof.
  refine (proj2 (proj2 (proj2 (calculate_loss_weighted_mean Demo.model
            Demo.rna_pred0 Demo.rna_pred1 Demo.rna
            Demo.tcr_pred0 Demo.tcr_pred1 Demo.tcr
            1 4 [2%nat] 1 4 [2%nat] 1 6 [] 1%Qc 1%Qc _ _ _ _ _))));
    reflexivity.
Defined.

(** C3 as worded fails: on the demonstration input the RNA loss is 5/2
    and the TCR loss 4, where the wording gives 5/4 and 2. *)
Lemma calculate_loss_not_described :
  calculate_loss Demo.model [Demo.rna_pred0; Demo.rna_pred1] Demo.rna
    [Demo.tcr_pred0; Demo.tcr_pred1] Demo.tcr
  = Returns (Q2Qc (5 # 2), Q2Qc 4)
  /\ described_modality_loss (Demo.sum_sq_error Demo.rna_pred0 Demo.rna)
       (Demo.sum_sq_error Demo.rna_pred1 Demo.rna) 1 = Q2Qc (5 # 4)
  /\ described_modality_loss
       (Demo.token_count (Dense [4; 2]%nat (data Demo.tcr_pred0))
          (tcr_target 4 Demo.tcr))
       (Demo.token_count (Dense [4; 2]%nat (data Demo.tcr_pred1))
          (tcr_target 4 Demo.tcr)) 1 = Q2Qc 2
  /\ Q2Qc (5 # 2) <> Q2Qc (5 # 4) /\ Q2Qc 4 <> Q2Qc 2.
Proof.
  split; [|split; [|split; [|split]]].
  - rewrite (calculate_loss_run Demo.model _ _ _ _ _ _
               1 4 [2%nat] 1 4 [2%nat] 1 6 [] 1%Qc 1%Qc) by reflexivity.
    do 2 f_equal; apply Qc_decomp; reflexivity.
  - apply Qc_decomp. reflexivity.
  - apply Qc_decomp. reflexivity.
  - intros H. apply (f_equal this) in H. discriminate H.
  - intros H. apply (f_equal this) in H. discriminate H.
Qed.

(** The KL loss and the fused mean of the demonstration input. *)
Lemma calculate_kld_loss_weighted_mean_witness :
  calculate_kld_loss Demo.model [Demo.mu0; Demo.mu1]
    [Demo.logvar0; Demo.logvar0] 5
  = Returns
      ((mean2 (Demo.half_sq_norm Demo.mu0 Demo.logvar0)
              (Demo.half_sq_norm Demo.mu1 Demo.logvar0)
        * 1 * Demo.linear_ramp 5)%Qc,
       Dense [1; 2]%nat [mean2 1 (Q2Qc 3); mean2 (Q2Qc 2) 0]).
Proof.
  refine (calculate_kld_loss_weighted_mean Demo.model
            Demo.mu0 Demo.mu1 Demo.logvar0 Demo.logvar0 5 1%Qc _ _);
    reflexivity.
Defined.

(** C4 as worded fails: on the demonstration input the KL loss is 7/4,
    where the wording gives 7/8. *)
Lemma calculate_kld_loss_not_described :
  (r ← calculate_kld_loss Demo.model [Demo.mu0; Demo.mu1]
         [Demo.logvar0; Demo.logvar0] 5;
   mret r.1)
  = Returns (Q2Qc (7 # 4))
  /\ described_kld_loss (Demo.half_sq_norm Demo.mu0 Demo.logvar0)
       (Demo.half_sq_norm Demo.mu1 Demo.logvar0) 1 (Demo.linear_ramp 5)
     = Q2Qc (7 # 8)
  /\ Q2Qc (7 # 4) <> Q2Qc (7 # 8).
Proof.
  split; [|split].
  - unfold calculate_kld_loss, py_index.
    change ([Demo.mu0; Demo.mu1] !! 0%nat) with (Some Demo.mu0).
    change ([Demo.mu0; Demo.mu1] !! 1%nat) with (Some Demo.mu1).
    change ([Demo.logvar0; Demo.logvar0] !! 0%nat) with (Some Demo.logvar0).
    change ([Demo.logvar0; Demo.logvar0] !! 1%nat) with (Some Demo.logvar0).
    change (loss_weights Demo.model !! 2%nat) with (Some 1%Qc).
    cbn [mbind outcome_bind mret outcome_ret].
    rewrite tadd_same_shape by reflexivity.
    cbn [mbind outcome_bind mret outcome_ret fst].
    f_equal; try (apply Qc_decomp; reflexivity).
  - apply Qc_decomp. reflexivity.
  - intros H. apply (f_equal this) in H. discriminate H.
Qed.

(** Fusing the two demonstration means, in either order. *)
Lemma get_latent_from_z_symmetric_witness :
  get_latent_from_z [Demo.mu0; Demo.mu1]
  = Returns (Dense [1; 2]%nat [mean2 1 (Q2Qc 3); mean2 (Q2Qc 2) 0])
  /\ get_latent_from_z [Demo.mu0; Demo.mu1]
     = get_latent_from_z [Demo.mu1; Demo.mu0].
Proof.
  refine (get_latent_from_z_symmetric Demo.mu0 Demo.mu1 _). reflexivity.
Defined.

End LossProps.

(** ** The forward pass *)

Module ForwardProps.
Import Torch MoE.

Section Forward.
Context {tensor world : Type} `{!Ops tensor world}.
Variable self : MoEModelTorch tensor world.

Lemma yields_run {A} (m : T world A) w y w' : m w = (y, w') -> yields m y.
Proof. intros H. exists w. now rewrite H. Qed.

Lemma T_bind_run {A B} (m : T world A) (f : A -> T world B) w x w' :
  m w = (x, w') -> (m ≫= f) w = f x w'.
Proof. intros H. unfold mbind, T_bind. now rewrite H. Qed.

Ltac pipeline :=
  repeat split; solve [reflexivity | eapply yields_run; eassumption].

(** C1.  For every model, input batch, optional covariate and state of
    the random generator, [forward] returns exactly two latent samples,
    two means and two log-variances, in the order RNA, TCR: the first mean
    and log-variance are encoded from the RNA input and the second from
    the TCR input, and each latent is sampled from the mean and
    log-variance at its position.  It returns exactly two RNA
    reconstructions and two TCR reconstructions; in both lists entry 0 is
    decoded from the RNA latent [z[0]] and entry 1 from the TCR latent
    [z[1]].  There is no third, joint latent. *)
Theorem forward_outputs (rna tcr tcr_len : tensor)
    (conditional : option tensor) (w : world) :
  exists cond_emb_vec z_rna z_tcr mu_rna mu_tcr logvar_rna logvar_tcr
         rna_from_rna rna_from_tcr tcr_from_rna tcr_from_tcr,
    (forward self rna tcr tcr_len conditional w).1
    = ([z_rna; z_tcr], [mu_rna; mu_tcr], [logvar_rna; logvar_tcr],
       [rna_from_rna; rna_from_tcr], [tcr_from_rna; tcr_from_tcr])
    /\ embeds self conditional cond_emb_vec
    /\ encodes_rna self cond_emb_vec rna (mu_rna, logvar_rna)
    /\ encodes_tcr self cond_emb_vec tcr tcr_len (mu_tcr, logvar_tcr)
    /\ samples mu_rna logvar_rna z_rna
    /\ samples mu_tcr logvar_tcr z_tcr
    /\ decodes_rna self cond_emb_vec z_rna rna_from_rna
    /\ decodes_rna self cond_emb_vec z_tcr rna_from_tcr
    /\ decodes_tcr self cond_emb_vec tcr z_rna tcr_from_rna
    /\ decodes_tcr self cond_emb_vec tcr z_tcr tcr_from_tcr.
Proof.
  unfold forward.
  destruct ((match conditional with
             | Some c => v ← cond_emb self c; mret (Some v)
             | None => mret None
             end) w) as [cev w0] eqn:Ecev.
  rewrite (T_bind_run _ _ _ _ _ Ecev).
  assert (embeds self conditional cev) as Hemb.
  { destruct conditional as [c|].
    - unfold mbind, T_bind in Ecev.
      destruct (cond_emb self c w) as [v w'] eqn:Ev.
      injection Ecev as <- <-. cbn. eapply yields_run, Ev.
    - injection Ecev as <- <-. exact I. }
  clear Ecev.
  destruct (alpha_encoder self (cols_to (shape1 tcr / 2) tcr) (col 0 tcr_len)
              w0) as [h_alpha w1] eqn:E1.
  rewrite (T_bind_run _ _ _ _ _ E1).
  destruct (beta_encoder self (cols_from (shape1 tcr / 2) tcr) (col 1 tcr_len)
              w1) as [h_beta w2] eqn:E2.
  rewrite (T_bind_run _ _ _ _ _ E2).
  destruct (rna_encoder self rna w2) as [h_rna w3] eqn:E3.
  rewrite (T_bind_run _ _ _ _ _ E3).
  fold (with_cond_input self cev h_rna).
  fold (with_cond_input self cev (cat [h_alpha; h_beta] (-1))).
  destruct (rna_vae_encoder self (with_cond_input self cev h_rna) w3)
    as [z_rna_ w4] eqn:E4.
  rewrite (T_bind_run _ _ _ _ _ E4).
  destruct (reparameterize (cols_to (shape1 z_rna_ / 2) z_rna_)
              (cols_from (shape1 z_rna_ / 2) z_rna_) w4)
    as [z_rna w5] eqn:E5.
  rewrite (T_bind_run _ _ _ _ _ E5).
  destruct (tcr_vae_encoder self
              (with_cond_input self cev (cat [h_alpha; h_beta] (-1))) w5)
    as [z_tcr_ w6] eqn:E6.
  rewrite (T_bind_run _ _ _ _ _ E6).
  destruct (reparameterize (cols_to (shape1 z_tcr_ / 2) z_tcr_)
              (cols_from (shape1 z_tcr_ / 2) z_tcr_) w6)
    as [z_tcr w7] eqn:E7.
  rewrite (T_bind_run _ _ _ _ _ E7).
  cbn [for_in].
  fold (with_cond cev z_rna). fold (with_cond cev z_tcr).
  destruct (rna_vae_decoder self (with_cond cev z_rna) w7)
    as [f_rna0 w8] eqn:E8.
  destruct (rna_decoder self f_rna0 w8) as [r0 w9] eqn:E9.
  destruct (rna_vae_decoder self (with_cond cev z_tcr) w9)
    as [f_rna1 w10] eqn:E10.
  destruct (rna_decoder self f_rna1 w10) as [r1 w11] eqn:E11.
  destruct (tcr_vae_decoder self (with_cond cev z_rna) w11)
    as [f_tcr0 w12] eqn:E12.
  destruct (alpha_decoder self f_tcr0 (cols_to (shape1 tcr / 2) tcr) w12)
    as [a0 w13] eqn:E13.
  destruct (beta_decoder self f_tcr0 (cols_from (shape1 tcr / 2) tcr) w13)
    as [b0 w14] eqn:E14.
  destruct (tcr_vae_decoder self (with_cond cev z_tcr) w14)
    as [f_tcr1 w15] eqn:E15.
  destruct (alpha_decoder self f_tcr1 (cols_to (shape1 tcr / 2) tcr) w15)
    as [a1 w16] eqn:E16.
  destruct (beta_decoder self f_tcr1 (cols_from (shape1 tcr / 2) tcr) w16)
    as [b1 w17] eqn:E17.
  exists cev, z_rna, z_tcr,
    (cols_to (shape1 z_rna_ / 2) z_rna_), (cols_to (shape1 z_tcr_ / 2) z_tcr_),
    (cols_from (shape1 z_rna_ / 2) z_rna_),
    (cols_from (shape1 z_tcr_ / 2) z_tcr_),
    r0, r1, (cat [a0; b0] 1), (cat [a1; b1] 1).
  split.
  { unfold mbind, T_bind, mret, T_ret.
    rewrite E8, E9. cbn [app]. rewrite E10, E11. cbn [app].
    rewrite E12, E13, E14. cbn [app]. rewrite E15, E16, E17. reflexivity. }
  split; [exact Hemb|].
  split; [exists h_rna, z_rna_; pipeline|].
  split; [exists h_alpha, h_beta, z_tcr_; pipeline|].
  split; [eapply yields_run, E5|]. split; [eapply yields_run, E7|].
  split; [exists f_rna0; pipeline|].
  split; [exists f_rna1; pipeline|].
  split; [exists f_tcr0, a0, b0; pipeline|].
  exists f_tcr1, a1, b1; pipeline.
Qed.

End Forward.
(** The forward pass on the tracing tensors: both reconstruction lists
    hold the decoding of the RNA latent, then that of the TCR latent. *)
Lemma forward_trace :
  let '(z, mu, logvar, rna_pred, tcr_pred) :=
    (forward Trace.model Trace.rna Trace.tcr Trace.tcr_len None 0%nat).1 in
  z = [Trace.z_rna; Trace.z_tcr]
  /\ rna_pred = [Trace.rna_from Trace.z_rna; Trace.rna_from Trace.z_tcr]
  /\ tcr_pred = [Trace.tcr_from Trace.z_rna; Trace.tcr_from Trace.z_tcr].
Proof. repeat split. Qed.

End ForwardProps.

(** ** The kNN reporting adapter *)

Module KnnProps.
Import KnnPrediction.

Lemma for_items_logs (metrics : dict metric) (epoch : Z) (st : effects) :
  for_items metrics (fun antigen metric =>
    if negb (String.eqb antigen "accuracy") then
      comet_do (log_metrics metric antigen epoch)
    else
      comet_do (log_metric "accuracy" metric epoch)) st
  = (Returns tt,
     Effects (stdout st) (comet_calls st ++ map (logged epoch) metrics)).
Proof.
  revert st. induction metrics as [|[k v] metrics IH]; intros st.
  - cbn. rewrite app_nil_r. now destruct st.
  - cbn [for_items map]. unfold mbind at 1, IO_bind at 1.
    assert ((if negb (String.eqb k "accuracy")
             then comet_do (log_metrics v k epoch)
             else comet_do (log_metric "accuracy" v epoch)) st
            = (Returns tt,
               Effects (stdout st) (comet_calls st ++ [logged epoch (k, v)])))
      as ->.
    { unfold logged. cbn [fst snd].
      now destruct (negb (String.eqb k "accuracy")). }
    rewrite IH. cbn [stdout comet_calls]. now rewrite <- app_assoc.
Qed.

Section Report.
Context {adata_t model_t embedding_func : Type}.
Variable get_model_prediction_function :
  model_t -> Z -> outcome embedding_func.
Variable run_imputation_evaluation :
  adata_t -> embedding_func -> string -> bool -> bool -> string ->
  outcome (dict (dict metric)).

(** C9.  Once the embedding function is built and the prediction column
    looked up, [report_knn_prediction] turns every exception of the
    nearest-neighbour evaluation into one printed line and the result
    [None], without raising and without a call on the tracker.  When the
    evaluation returns a summary that holds the weighted-average F1 score,
    the result is the pair of that score and [operator.gt], after one
    tracker call per entry of the metrics if a tracker is given;
    [operator.gt] holds of [a] and [b] exactly when [a] is greater. *)
Theorem report_knn_prediction_outcomes (adata : adata_t) (model : model_t)
    (optimization_mode_params : dict string) (batch_size epoch : Z)
    (comet : bool) (st : effects)
    (test_embedding_func : embedding_func) (label_pred : string) :
  get_model_prediction_function model batch_size
  = Returns test_embedding_func ->
  dict_get optimization_mode_params "prediction_column" = Returns label_pred ->
  let evaluation :=
    run_imputation_evaluation adata test_embedding_func "val" true true
      label_pred in
  let run :=
    report_knn_prediction get_model_prediction_function
      run_imputation_evaluation adata model optimization_mode_params
      batch_size epoch comet st in
  (forall e, evaluation = Raises e ->
     run = (Returns None,
            Effects (stdout st ++ ["kNN did not work"%string])
                    (comet_calls st)))
  /\ (forall summary metrics weighted f1,
        evaluation = Returns summary ->
        dict_get summary "knn" = Returns metrics ->
        dict_get metrics "weighted avg" = Returns weighted ->
        metric_get weighted "f1-score" = Returns f1 ->
        run = (Returns (Some (f1, gt)),
               Effects (stdout st)
                 (comet_calls st
                  ++ if comet then map (logged epoch) metrics else [])))
  /\ (forall a b, apply_operator gt a b = true <-> (b < a)%Qc).
Proof.
  intros Hfn Hlabel evaluation run.
  unfold run, report_knn_prediction.
  unfold mbind, IO_bind, io, try_except. rewrite Hfn, Hlabel.
  fold evaluation.
  split; [|split].
  - intros e He. rewrite He. reflexivity.
  - intros summary metrics weighted f1 He Hknn Hw Hf1.
    rewrite He. cbn [mret IO_ret]. rewrite Hknn.
    destruct comet.
    + rewrite for_items_logs, Hw, Hf1. reflexivity.
    + cbn [mret IO_ret]. rewrite Hw, Hf1, app_nil_r. now destruct st.
  - intros a b. unfold apply_operator. apply bool_decide_eq_true.
Qed.

End Report.
(** The adapter on an evaluation that fails and on one that succeeds. *)
Lemma report_knn_prediction_outcomes_witness :
  report_knn_prediction Demo.prediction_function Demo.failing_evaluation
    tt tt Demo.params 32 1 true Demo.quiet
  = (Returns None, Effects ["kNN did not work"%string] [])
  /\ report_knn_prediction Demo.prediction_function Demo.working_evaluation
       tt tt Demo.params 32 1 true Demo.quiet
     = (Returns (Some (half, gt)),
        Effects [] [log_metrics Demo.report "GILGFVFTL" 1;
                    log_metric "accuracy" (Number half) 1;
                    log_metrics Demo.report "weighted avg" 1]).
Proof.
  split.
  - refine (proj1 (report_knn_prediction_outcomes Demo.prediction_function
              Demo.failing_evaluation tt tt Demo.params 32 1 true Demo.quiet
              tt "binding_name" _ _) ValueError _); reflexivity.
  - refine (proj1 (proj2 (report_knn_prediction_outcomes
              Demo.prediction_function Demo.working_evaluation tt tt
              Demo.params 32 1 true Demo.quiet tt "binding_name" _ _))
              Demo.summary Demo.metrics Demo.report half _ _ _ _); reflexivity.
Defined.

End KnnProps.

(** ** What the sequence codec writes *)

Module CodecProps.
Import PyStr AnnData Utils UtilsProps.

(** *** Comprehensions *)

Lemma list_comp_returns {A B} (f : A -> outcome B) (g : A -> B) xs :
  Forall (fun x => f x = Returns (g x)) xs ->
  list_comp f xs = Returns (map g xs).
Proof.
  induction 1 as [|x xs Hx _ IH]; [reflexivity|].
  cbn [list_comp map]. now rewrite Hx, IH.
Qed.

Lemma list_comp_raises {A B} (f : A -> outcome B) xs e :
  list_comp f xs = Raises e -> exists x, x ∈ xs /\ f x = Raises e.
Proof.
  induction xs as [|x xs IH]; cbn [list_comp]; [discriminate|].
  destruct (f x) as [y|e'] eqn:Ex.
  - destruct (list_comp f xs) as [ys|e'']; [discriminate|].
    intros [= ->]. destruct IH as (x' & Hin & Hx'); [reflexivity|].
    exists x'. split; [now apply list_elem_of_further|exact Hx'].
  - intros [= ->]. exists x. split; [apply list_elem_of_here|exact Ex].
Qed.

Lemma list_comp_length {A B} (f : A -> outcome B) xs ys :
  list_comp f xs = Returns ys -> length ys = length xs.
Proof.
  revert ys. induction xs as [|x xs IH]; intros ys; cbn [list_comp].
  - now intros [= <-].
  - destruct (f x); [|discriminate].
    destruct (list_comp f xs) as [ys'|]; [|discriminate].
    intros [= <-]. cbn. f_equal. now apply IH.
Qed.

Lemma elem_of_concat {A} (x : A) (ls : list (list A)) :
  x ∈ concat ls <-> exists l, l ∈ ls /\ x ∈ l.
Proof.
  rewrite list_elem_of_In, in_concat. split.
  - intros (l & Hl & Hx). exists l. now rewrite !list_elem_of_In.
  - intros (l & Hl & Hx). exists l. now rewrite <- !list_elem_of_In.
Qed.

(** *** The built vocabulary *)

Lemma enumerate_vocab_size (u : list ascii) :
  NoDup u -> size (enumerate_vocab u) = length u.
Proof.
  intros Hnd. unfold enumerate_vocab.
  assert (forall (l : list (Z * ascii)) (m0 : vocab),
            NoDup (l.*2) -> (forall p, p ∈ l -> m0 !! p.2 = None) ->
            size (foldl (fun m '(id_, aa) => <[aa := id_]> m) m0 l)
            = (size m0 + length l)%nat) as Hfold.
  { induction l as [|[i a] l IH]; intros m0 Hl Hfresh; cbn [foldl length].
    - lia.
    - cbn in Hl. apply NoDup_cons in Hl as [Hnotin Hl].
      rewrite IH; [|exact Hl|].
      + rewrite map_size_insert_None; [lia|].
        apply (Hfresh (i, a)), list_elem_of_here.
      + intros p Hp. rewrite lookup_insert_ne.
        * apply Hfresh. now apply list_elem_of_further.
        * intros ->. apply Hnotin. apply list_elem_of_fmap. now exists p. }
  rewrite Hfold.
  - rewrite map_size_empty, length_imap. lia.
  - replace ((imap (fun i aa => (Z.of_nat i, aa)) u).*2) with u; [exact Hnd|].
    apply list_eq. intros i.
    rewrite list_lookup_fmap, list_lookup_imap. now destruct (u !! i).
  - intros p _. apply lookup_empty.
Qed.

Lemma built_vocab_get (aa_tokens : list (list ascii)) c :
  c ∈ concat aa_tokens ->
  exists i, unique_aa_tokens aa_tokens !! i = Some c
            /\ vocab_get (enumerate_vocab (unique_aa_tokens aa_tokens)) c
               = Returns (Z.of_nat i).
Proof.
  intros Hc. apply unique_aa_tokens_elem in Hc.
  apply list_elem_of_lookup in Hc as [i Hi]. exists i. split; [exact Hi|].
  unfold vocab_get.
  assert (enumerate_vocab (unique_aa_tokens aa_tokens) !! c
          = Some (Z.of_nat i)) as ->; [|reflexivity].
  apply enumerate_vocab_lookup; [apply unique_aa_tokens_nodup|]. now exists i.
Qed.

Lemma position_spec (u : list ascii) c :
  NoDup u -> c ∈ u ->
  exists i, position u c = Z.of_nat i /\ u !! i = Some c.
Proof.
  intros Hnd Hc. unfold position.
  destruct (list_find (fun x => x = c) u) as [[i x]|] eqn:Hfind.
  - apply list_find_Some in Hfind as (Hi & -> & _). now exists i.
  - apply list_find_None in Hfind. rewrite Forall_forall in Hfind.
    now destruct (Hfind c Hc).
Qed.

Lemma built_vocab_get_position (aa_tokens : list (list ascii)) c :
  c ∈ concat aa_tokens ->
  vocab_get (enumerate_vocab (unique_aa_tokens aa_tokens)) c
  = Returns (position (unique_aa_tokens aa_tokens) c).
Proof.
  intros Hc. apply unique_aa_tokens_elem in Hc.
  destruct (position_spec _ c (unique_aa_tokens_nodup aa_tokens) Hc)
    as (i & -> & Hi).
  unfold vocab_get.
  assert (enumerate_vocab (unique_aa_tokens aa_tokens) !! c
          = Some (Z.of_nat i)) as ->; [|reflexivity].
  apply enumerate_vocab_lookup; [apply unique_aa_tokens_nodup|]. now exists i.
Qed.

Lemma built_token_ids (aa_tokens : list (list ascii)) :
  list_comp (list_comp (vocab_get (enumerate_vocab
                                     (unique_aa_tokens aa_tokens))))
            aa_tokens
  = Returns (map (map (position (unique_aa_tokens aa_tokens))) aa_tokens).
Proof.
  apply list_comp_returns. apply Forall_forall. intros toks Htoks.
  apply list_comp_returns. apply Forall_forall. intros c Hc.
  apply built_vocab_get_position. apply elem_of_concat. now exists toks.
Qed.

(** X1.  With the vocabulary that [aa_encoding] builds from the sequences
    themselves (lines 46-48), the look-up of line 51 never raises: every
    character gets an id from 0 up to the size of the vocabulary, and it
    is the character found at that position of the sorted list of the
    distinct characters. *)
Theorem built_vocabulary_round_trip (aa_tokens : list (list ascii)) :
  let unique := unique_aa_tokens aa_tokens in
  let aa_to_id := enumerate_vocab unique in
  exists token_ids,
    list_comp (list_comp (vocab_get aa_to_id)) aa_tokens = Returns token_ids
    /\ Forall2 (Forall2 (fun token token_id =>
                   0 <= token_id < Z.of_nat (size aa_to_id)
                   /\ unique !! Z.to_nat token_id = Some token))
               aa_tokens token_ids.
Proof.
  intros unique aa_to_id. subst unique aa_to_id.
  eexists. split; [apply built_token_ids|].
  apply Forall2_fmap_r, Forall_Forall2_diag, Forall_forall. intros toks Htoks.
  apply Forall2_fmap_r, Forall_Forall2_diag, Forall_forall. intros c Hc.
  assert (c ∈ unique_aa_tokens aa_tokens) as Hu.
  { apply unique_aa_tokens_elem, elem_of_concat. now exists toks. }
  destruct (position_spec _ c (unique_aa_tokens_nodup aa_tokens) Hu)
    as (i & Hpos & Hi).
  unfold compose. rewrite Hpos, Nat2Z.id. split; [|exact Hi].
  rewrite enumerate_vocab_size by apply unique_aa_tokens_nodup.
  apply lookup_lt_Some in Hi. lia.
Qed.

(** X2.  The vocabulary built by lines 47-48 has one entry per distinct
    character of the sequences and no other; its ids are exactly
    0, ..., len(aa_to_id) - 1, each given to one character. *)
Theorem built_vocabulary_bijective (aa_tokens : list (list ascii)) :
  let unique := unique_aa_tokens aa_tokens in
  let aa_to_id := enumerate_vocab unique in
  size aa_to_id = length unique
  /\ (forall c, is_Some (aa_to_id !! c) <-> c ∈ concat aa_tokens)
  /\ (forall c id_, aa_to_id !! c = Some id_ ->
        0 <= id_ < Z.of_nat (size aa_to_id))
  /\ (forall c1 c2 id_,
        aa_to_id !! c1 = Some id_ -> aa_to_id !! c2 = Some id_ -> c1 = c2)
  /\ (forall id_, 0 <= id_ < Z.of_nat (size aa_to_id) ->
        exists c, aa_to_id !! c = Some id_).
Proof.
  intros unique aa_to_id.
  pose proof (unique_aa_tokens_nodup aa_tokens) as Hnd. fold unique in Hnd.
  assert (size aa_to_id = length unique) as Hsize
    by now apply enumerate_vocab_size.
  split; [exact Hsize|]. split; [|split; [|split]].
  - intros c. unfold aa_to_id. split.
    + intros [id_ H]. apply enumerate_vocab_lookup in H as (i & Hi & _);
        [|exact Hnd].
      apply unique_aa_tokens_elem. apply list_elem_of_lookup. now exists i.
    + intros Hc. apply unique_aa_tokens_elem in Hc.
      apply list_elem_of_lookup in Hc as [i Hi]. exists (Z.of_nat i).
      apply enumerate_vocab_lookup; [exact Hnd|]. now exists i.
  - intros c id_ H. apply enumerate_vocab_lookup in H as (i & Hi & ->);
      [|exact Hnd].
    apply lookup_lt_Some in Hi. lia.
  - intros c1 c2 id_ H1 H2.
    apply enumerate_vocab_lookup in H1 as (i & Hi & ->); [|exact Hnd].
    apply enumerate_vocab_lookup in H2 as (j & Hj & Hij); [|exact Hnd].
    apply Nat2Z.inj in Hij. subst j. congruence.
  - intros id_ Hid. rewrite Hsize in Hid.
    destruct (lookup_lt_is_Some_2 unique (Z.to_nat id_)) as [c Hc]; [lia|].
    exists c. apply enumerate_vocab_lookup; [exact Hnd|].
    exists (Z.to_nat id_). split; [exact Hc|lia].
Qed.

(** *** One-hot rows *)

Lemma np_setitem_accepted (x : list Qc) (token_id : Z) (v : Qc) :
  - Z.of_nat (length x) <= token_id < Z.of_nat (length x) ->
  np_setitem x token_id v
  = Returns (<[Z.to_nat (token_id mod Z.of_nat (length x)) := v]> x).
Proof.
  intros Hid. unfold np_setitem.
  destruct (Z.leb_spec 0 token_id), (Z.ltb_spec token_id (Z.of_nat (length x)));
    cbn [andb]; try lia.
  - now rewrite Z.mod_small by lia.
  - destruct (Z.leb_spec (- Z.of_nat (length x)) token_id),
             (Z.ltb_spec token_id 0); cbn [andb]; try lia.
    do 3 f_equal.
    rewrite <- (Z_mod_plus_full token_id 1), Z.mod_small; lia.
Qed.

Lemma np_setitem_refused (x : list Qc) (token_id : Z) (v : Qc) :
  ~ (- Z.of_nat (length x) <= token_id < Z.of_nat (length x)) ->
  np_setitem x token_id v = Raises IndexError.
Proof.
  intros Hid. unfold np_setitem.
  destruct (Z.leb_spec 0 token_id), (Z.ltb_spec token_id (Z.of_nat (length x)));
    cbn [andb]; try lia;
    destruct (Z.leb_spec (- Z.of_nat (length x)) token_id),
             (Z.ltb_spec token_id 0); cbn [andb]; try lia; reflexivity.
Qed.

Lemma np_setitem_raises (x : list Qc) (token_id : Z) (v : Qc) e :
  np_setitem x token_id v = Raises e -> e = IndexError.
Proof.
  unfold np_setitem.
  repeat match goal with |- context [if ?b then _ else _] => destruct b end;
    congruence.
Qed.

Lemma list_comp_raises_at {A B} (f : A -> outcome B) xs x e :
  x ∈ xs -> f x = Raises e -> exists e', list_comp f xs = Raises e'.
Proof.
  intros Hin Hx. induction xs as [|y ys IH]; [now apply elem_of_nil in Hin|].
  cbn [list_comp]. destruct (f y) as [z|e'] eqn:Ey; [|now exists e'].
  apply elem_of_cons in Hin as [->|Hin]; [congruence|].
  destruct (IH Hin) as [e' ->]. now exists e'.
Qed.

(** X3.  The one-hot loop of lines 55-58 on one sequence: when every
    token id lies in [-width, width) the matrix has one row per token,
    all zeros but a one in column [token_id mod width] (a negative id
    counts from the end, as numpy indexes); when some id lies outside,
    the assignment [x[token_id] = 1.0] raises IndexError. *)
Theorem one_hot_seq_rows (width : nat) (token_id_seq : list Z) :
  let accepted token_id :=
    - Z.of_nat width <= token_id < Z.of_nat width in
  (Forall accepted token_id_seq ->
     one_hot_seq width token_id_seq
     = Returns (map (fun token_id =>
                       one_hot_row width (token_id mod Z.of_nat width))
                    token_id_seq)
     /\ forall token_id (j : nat),
          accepted token_id -> (j < width)%nat ->
          one_hot_row width (token_id mod Z.of_nat width) !! j
          = Some (if decide (Z.of_nat j = token_id mod Z.of_nat width)
                  then 1%Qc else 0%Qc))
  /\ (~ Forall accepted token_id_seq ->
       one_hot_seq width token_id_seq = Raises IndexError).
Proof.
  intros accepted. split.
  - intros Hall. split.
    + unfold one_hot_seq. apply list_comp_returns.
      eapply Forall_impl; [exact Hall|]. intros token_id Hid. cbn beta.
      rewrite np_setitem_accepted by now rewrite length_replicate.
      now rewrite length_replicate.
    + intros token_id j Hid Hj. unfold one_hot_row.
      assert (0 <= token_id mod Z.of_nat width < Z.of_nat width) as Hmod
        by (apply Z.mod_pos_bound; lia).
      destruct (decide (Z.of_nat j = token_id mod Z.of_nat width)) as [Heq|Hne].
      * rewrite <- Heq, Nat2Z.id. apply list_lookup_insert_eq.
        now rewrite length_replicate.
      * rewrite list_lookup_insert_ne by lia.
        now apply lookup_replicate_2.
  - intros Hnot. apply not_Forall_Exists in Hnot; [|intros x; unfold accepted; apply _].
    apply Exists_exists in Hnot as (token_id & Hin & Hid).
    unfold one_hot_seq.
    destruct (list_comp_raises_at
                (fun token_id => np_setitem (replicate width 0%Qc) token_id 1%Qc)
                token_id_seq token_id IndexError Hin) as [e He].
    { apply np_setitem_refused. now rewrite length_replicate. }
    rewrite He. f_equal.
    apply list_comp_raises in He as (x & _ & Hx).
    now apply np_setitem_raises in Hx.
Qed.

(** *** The encoding step *)

Lemma np_stack_rectangular {A} (xs : list (list A)) :
  np_stack xs = if rectangular xs then Returns xs else Raises ValueError.
Proof. now destruct xs. Qed.

Lemma rectangular_fmap {A B} (f : list A -> list B) (xs : list (list A)) :
  (forall x, length (f x) = length x) ->
  rectangular (map f xs) = rectangular xs.
Proof.
  intros Hf. destruct xs as [|x xs]; [reflexivity|]. cbn [rectangular map].
  induction xs as [|y ys IH]; [reflexivity|].
  cbn [map forallb]. now rewrite IH, !Hf.
Qed.


Lemma built_one_hot (aa_tokens : list (list ascii)) :
  let unique := unique_aa_tokens aa_tokens in
  let token_ids := map (map (position unique)) aa_tokens in
  list_comp (one_hot_seq (size (enumerate_vocab unique))) token_ids
  = Returns (map (map (one_hot_row (size (enumerate_vocab unique))))
                 token_ids).
Proof.
  intros unique token_ids. subst unique token_ids.
  apply list_comp_returns, Forall_forall.
  intros ids Hids. unfold one_hot_seq. apply list_comp_returns, Forall_forall.
  intros id_ Hid. cbn beta.
  apply list_elem_of_fmap in Hids as (toks & -> & Htoks).
  apply list_elem_of_fmap in Hid as (c & -> & Hc).
  assert (c ∈ unique_aa_tokens aa_tokens) as Hu.
  { apply unique_aa_tokens_elem, elem_of_concat. now exists toks. }
  destruct (position_spec _ c (unique_aa_tokens_nodup aa_tokens) Hu)
    as (i & Hpos & Hi).
  rewrite Hpos. apply lookup_lt_Some in Hi.
  rewrite enumerate_vocab_size by apply unique_aa_tokens_nodup.
  rewrite np_setitem_accepted by (rewrite length_replicate; lia).
  rewrite length_replicate, Z.mod_small by lia. reflexivity.
Qed.

Lemma write_encoding_steps (sequence_col : list string) :
  let aa_tokens := map chars sequence_col in
  let unique := unique_aa_tokens aa_tokens in
  let aa_to_id := enumerate_vocab unique in
  let token_ids := map (map (position unique)) aa_tokens in
  let one_hot := map (map (one_hot_row (size aa_to_id))) token_ids in
  list_comp (list_comp (vocab_get aa_to_id)) aa_tokens = Returns token_ids
  /\ list_comp (one_hot_seq (size aa_to_id)) token_ids = Returns one_hot
  /\ rectangular token_ids = rectangular aa_tokens
  /\ rectangular one_hot = rectangular aa_tokens.
Proof.
  intros aa_tokens unique aa_to_id token_ids one_hot.
  assert (rectangular token_ids = rectangular aa_tokens) as Hids.
  { unfold token_ids. apply rectangular_fmap. intros x. apply length_map. }
  repeat split.
  - apply built_token_ids.
  - apply built_one_hot.
  - exact Hids.
  - unfold one_hot. rewrite rectangular_fmap; [exact Hids|].
    intros x. apply length_map.
Qed.


(** X4.  Lines 43-68 with a vocabulary built on the spot: when the
    sequences are not empty in number and all of one length, all requested
    columns, matrices and the vocabulary are written, with ids that are
    positions in the sorted character list; when they are not, [np.stack]
    raises ValueError after the first requested column has already been
    written to [obs], and neither [obsm] nor [uns] is touched. *)
Theorem write_encoding_outcome
    (ohe_col label_col : option string) (sequence_col : list string)
    (adata : AnnData.t) :
  let aa_tokens := map chars sequence_col in
  let unique := unique_aa_tokens aa_tokens in
  let aa_to_id := enumerate_vocab unique in
  let token_ids := map (map (position unique)) aa_tokens in
  let one_hot := map (map (one_hot_row (size aa_to_id))) token_ids in
  (rectangular aa_tokens = true ->
     write_encoding ohe_col label_col None sequence_col adata
     = (Returns tt,
        encoded ohe_col label_col aa_to_id token_ids one_hot adata))
  /\ (rectangular aa_tokens = false ->
      is_None label_col && is_None ohe_col = false ->
      write_encoding ohe_col label_col None sequence_col adata
      = (Raises ValueError,
         half_encoded ohe_col label_col token_ids one_hot adata)).
Proof.
  intros aa_tokens unique aa_to_id token_ids one_hot.
  destruct (write_encoding_steps sequence_col) as (Htok & Hrows & Hids & Hoh).
  fold aa_tokens unique aa_to_id token_ids one_hot in Htok, Hrows, Hids, Hoh.
  unfold write_encoding. fold aa_tokens unique aa_to_id.
  unfold encoded, half_encoded.
  split.
  - intros Hrect. rewrite Hrect in Hids, Hoh.
    destruct ohe_col as [oc|], label_col as [lc|];
      unfold mbind, M_bind, lift, modify, mret, M_ret;
      rewrite Htok, ?Hrows, ?np_stack_rectangular, ?Hoh, ?Hids; reflexivity.
  - intros Hrect Hout. rewrite Hrect in Hids, Hoh.
    destruct ohe_col as [oc|], label_col as [lc|]; try discriminate Hout;
      unfold mbind, M_bind, lift, modify, mret, M_ret;
      rewrite Htok, ?Hrows, ?np_stack_rectangular, ?Hoh, ?Hids; reflexivity.
Qed.

(** *** Whole calls *)

Lemma aa_encoding_run rc ohe lab lc pad v ses col a :
  obs a !! rc = Some (ColStr col) ->
  is_None lab && is_None ohe = false ->
  aa_encoding rc ohe lab lc pad v ses a
  = (sequence_col rc (effective_pad ses pad) ≫= write_encoding ohe lab v)
      (prepared rc lc ses col a).
Proof.
  intros Hrc Hout. unfold aa_encoding.
  unfold mbind at 1, M_bind at 1.
  now rewrite (prepare_run _ _ _ _ _ _ col).
Qed.

Lemma read_prepared rc lc ses col a :
  obs a !! rc = Some (ColStr col) -> truthy lc <> Some rc ->
  read_str rc (prepared rc lc ses col a)
  = (Returns (sentinels ses col), prepared rc lc ses col a).
Proof. intros Hrc Hlc. apply read_str_ok. now apply prepared_read. Qed.



(** X6.  On a column of strings without rows, the lengths not being
    written over it, [aa_encoding] raises whatever the other arguments
    are: the assertion of line 23, the width that the maximum of an empty
    column gives to [ljust], or [np.stack] of an empty list. *)
Theorem aa_encoding_empty_column_raises
    (read_col : string) (ohe_col label_col length_col : option string)
    (pad : pad_arg) (aa_to_id : option vocab) (start_end_symbol : bool)
    (adata : AnnData.t) :
  obs adata !! read_col = Some (ColStr []) ->
  truthy length_col <> Some read_col ->
  exists e,
    (aa_encoding read_col ohe_col label_col length_col pad aa_to_id
       start_end_symbol adata).1 = Raises e
    /\ e <> OutsideModel.
Proof.
  intros Hrc Hlc.
  destruct (is_None label_col && is_None ohe_col) eqn:Hout.
  { unfold aa_encoding, prepare. rewrite Hout.
    eexists. split; [reflexivity|discriminate]. }
  rewrite (aa_encoding_run _ _ _ _ _ _ _ [] _ Hrc Hout).
  pose proof (read_prepared read_col length_col start_end_symbol [] adata
                Hrc Hlc) as Hread.
  assert (sentinels start_end_symbol [] = []) as Hnil
    by now destruct start_end_symbol.
  rewrite Hnil in Hread.
  destruct ohe_col as [oc|], label_col as [lc|]; try discriminate Hout;
    destruct start_end_symbol, pad as [n|[]], aa_to_id as [v|];
    cbn [effective_pad Utils.sequence_col];
    unfold mbind, M_bind; rewrite Hread;
    (eexists; split; [reflexivity|discriminate]).
Qed.

(** X8.  When the container has no column [read_col] and an output is
    requested, [aa_encoding] raises [KeyError(read_col)] and leaves the
    container as it was. *)
Theorem aa_encoding_missing_read_col
    (read_col : string) (ohe_col label_col length_col : option string)
    (pad : pad_arg) (aa_to_id : option vocab) (start_end_symbol : bool)
    (adata : AnnData.t) :
  obs adata !! read_col = None ->
  is_None label_col && is_None ohe_col = false ->
  aa_encoding read_col ohe_col label_col length_col pad aa_to_id
    start_end_symbol adata
  = (Raises (KeyError read_col), adata).
Proof.
  intros Hrc Hout.
  assert (read_str read_col adata = (Raises (KeyError read_col), adata))
    as Hread by (unfold read_str; now rewrite Hrc).
  unfold aa_encoding, prepare. rewrite Hout.
  destruct start_end_symbol, (truthy length_col), pad as [n|[]];
    repeat (progress (unfold Utils.sequence_col, mbind, M_bind, mret, M_ret;
                      cbn beta iota; rewrite ?Hread));
    reflexivity.
Qed.

Lemma write_encoding_missing_token
    (ohe_col label_col : option string) (aa_to_id : vocab)
    (sequence_col : list string) (adata : AnnData.t) :
  (exists token,
      token ∈ concat (map chars sequence_col) /\ aa_to_id !! token = None) ->
  exists token,
    token ∈ concat (map chars sequence_col)
    /\ aa_to_id !! token = None
    /\ write_encoding ohe_col label_col (Some aa_to_id) sequence_col adata
       = (Raises (KeyError (String token EmptyString)), adata).
Proof.
  intros (c & Hc & Hnone).
  apply elem_of_concat in Hc as (toks & Htoks & Hc).
  assert (vocab_get aa_to_id c = Raises (KeyError (String c EmptyString)))
    as Hget by (unfold vocab_get; now rewrite Hnone).
  destruct (list_comp_raises_at _ _ _ _ Hc Hget) as [e1 He1].
  destruct (list_comp_raises_at (list_comp (vocab_get aa_to_id))
              _ _ _ Htoks He1) as [e He].
  pose proof He as Hwhere.
  apply list_comp_raises in Hwhere as (toks' & Htoks' & Hraise).
  apply list_comp_raises in Hraise as (c' & Hc' & Hget').
  unfold vocab_get in Hget'.
  destruct (aa_to_id !! c') eqn:Hlook; [discriminate|].
  injection Hget' as <-.
  exists c'. split; [|split; [exact Hlook|]].
  - apply elem_of_concat. now exists toks'.
  - unfold write_encoding, mbind, M_bind, lift. now rewrite He.
Qed.

(** X9.  With a vocabulary passed by the caller, a character of the
    padded sequences that the vocabulary lacks makes line 51 raise
    KeyError of such a character.  By then lines 26 and 31 have run: the
    sequence column holds the wrapped sequences if sentinels are added,
    and the length column the lengths if one is named; no other column
    of [obs], nothing of [obsm] and nothing of [uns] has been written. *)
Theorem aa_encoding_unknown_token
    (read_col : string) (ohe_col label_col length_col : option string)
    (pad : pad_arg) (aa_to_id : vocab) (start_end_symbol : bool)
    (col seqs : list string) (adata : AnnData.t) :
  obs adata !! read_col = Some (ColStr col) ->
  is_None label_col && is_None ohe_col = false ->
  truthy length_col <> Some read_col ->
  ((prepare read_col ohe_col label_col length_col pad start_end_symbol
      ≫= Utils.sequence_col read_col) adata).1 = Returns seqs ->
  (exists token,
      token ∈ concat (map chars seqs) /\ aa_to_id !! token = None) ->
  let run :=
    aa_encoding read_col ohe_col label_col length_col pad (Some aa_to_id)
      start_end_symbol adata in
  (exists token,
      token ∈ concat (map chars seqs)
      /\ aa_to_id !! token = None
      /\ run.1 = Raises (KeyError (String token EmptyString)))
  /\ obs run.2
     = obs (prepared read_col length_col start_end_symbol col adata)
  /\ (start_end_symbol = true ->
      obs run.2 !! read_col = Some (ColStr (map wrap col)))
  /\ (forall c, truthy length_col = Some c ->
        obs run.2 !! c
        = Some (ColInt (map len (sentinels start_end_symbol col))))
  /\ (forall k, k <> read_col -> truthy length_col <> Some k ->
        obs run.2 !! k = obs adata !! k)
  /\ obsm run.2 = obsm adata
  /\ uns run.2 = uns adata.
Proof.
  intros Hrc Hout Hlc Hseqs Hmissing run.
  pose proof (prepare_run read_col ohe_col label_col length_col pad
                start_end_symbol col adata Hrc Hout) as Hprep.
  set (a1 := prepared read_col length_col start_end_symbol col adata) in *.
  assert (Utils.sequence_col read_col (effective_pad start_end_symbol pad) a1
          = (Returns seqs, a1)) as Hcol.
  { unfold mbind, M_bind in Hseqs. rewrite Hprep in Hseqs.
    pose proof (sequence_col_state read_col
                  (effective_pad start_end_symbol pad) a1) as Hstate.
    destruct (Utils.sequence_col read_col
                (effective_pad start_end_symbol pad) a1) as [o a2].
    cbn [fst snd] in *. now subst. }
  destruct (write_encoding_missing_token ohe_col label_col aa_to_id seqs a1
              Hmissing) as (token & Hin & Hnone & Hrun).
  assert (run = (Raises (KeyError (String token EmptyString)), a1)) as ->.
  { unfold run. rewrite (aa_encoding_run _ _ _ _ _ _ _ col) by assumption.
    fold a1. unfold mbind, M_bind. now rewrite Hcol. }
  cbn [fst snd]. split; [now exists token|]. split; [reflexivity|].
  unfold a1, prepared. repeat split.
  - intros ->. destruct (truthy length_col) as [c|]; cbn [obs set_obs].
    + rewrite lookup_insert_ne by congruence. apply lookup_insert_eq.
    + apply lookup_insert_eq.
  - intros c ->. cbn [obs set_obs]. apply lookup_insert_eq.
  - intros k Hk Hlk.
    destruct start_end_symbol, (truthy length_col) as [c|];
      cbn [obs set_obs]; rewrite ?lookup_insert_ne by congruence;
      reflexivity.
  - now destruct start_end_symbol, (truthy length_col).
  - now destruct start_end_symbol, (truthy length_col).
Qed.

(** *** What a call leaves alone *)

Section Keeps.
Context {V : Type} (field : AnnData.t -> gmap string V) (k : string).

Lemma keeps_bind {A B} (m : M A) (f : A -> M B) :
  keeps field k m -> (forall x, keeps field k (f x)) ->
  keeps field k (m ≫= f).
Proof.
  intros Hm Hf a. unfold mbind, M_bind.
  specialize (Hm a). destruct (m a) as [[x|e] a']; cbn [snd] in *.
  - now rewrite Hf.
  - exact Hm.
Qed.

Lemma keeps_ret {A} (x : A) : keeps field k (mret x).
Proof. intros a. reflexivity. Qed.

Lemma keeps_raise {A} e : keeps field k (@raise A e).
Proof. intros a. reflexivity. Qed.

Lemma keeps_lift {A} (o : outcome A) : keeps field k (lift o).
Proof. intros a. reflexivity. Qed.

Lemma keeps_read_str rc : keeps field k (read_str rc).
Proof.
  intros a. unfold read_str. destruct (obs a !! rc) as [[]|]; reflexivity.
Qed.

Lemma keeps_modify f :
  (forall a, field (f a) !! k = field a !! k) -> keeps field k (modify f).
Proof. intros Hf a. apply Hf. Qed.

Lemma keeps_sequence_col rc pad : keeps field k (sequence_col rc pad).
Proof.
  destruct pad as [n|[]]; cbn [sequence_col];
    repeat first [ apply keeps_bind; [|intros ?] | apply keeps_ret
                 | apply keeps_read_str | apply keeps_lift ].
Qed.

End Keeps.

Ltac keeps :=
  repeat first
    [ apply keeps_bind; [|intros ?]
    | apply keeps_ret | apply keeps_raise | apply keeps_lift
    | apply keeps_read_str | apply keeps_sequence_col
    | apply keeps_modify; intros ?; cbn [obs obsm uns set_obs set_obsm set_uns];
      first [ reflexivity | apply lookup_insert_ne; congruence ] ].

(** X7.  What [aa_encoding] leaves alone on a column of strings, whether
    it returns or raises: every column of [obs] other than the length,
    one-hot and label columns and, with sentinels, the sequence column;
    every entry of [obsm] other than the one-hot and label entries; every
    entry of [uns] other than ['aa_to_id']. *)
Theorem aa_encoding_frame
    (read_col : string) (ohe_col label_col length_col : option string)
    (pad : pad_arg) (aa_to_id : option vocab) (start_end_symbol : bool)
    (adata : AnnData.t) :
  let run :=
    aa_encoding read_col ohe_col label_col length_col pad aa_to_id
      start_end_symbol adata in
  raised run.1 <> Some OutsideModel ->
  (forall k, start_end_symbol = false \/ k <> read_col ->
     truthy length_col <> Some k -> ohe_col <> Some k -> label_col <> Some k ->
     obs run.2 !! k = obs adata !! k)
  /\ (forall k, ohe_col <> Some k -> label_col <> Some k ->
        obsm run.2 !! k = obsm adata !! k)
  /\ (forall k, k <> "aa_to_id"%string -> uns run.2 !! k = uns adata !! k).
Proof.
  intros run _. unfold run. clear run. split; [|split].
  - intros k Hrc Hlc Ho Hl. revert adata.
    change (keeps obs k (aa_encoding read_col ohe_col label_col length_col
                           pad aa_to_id start_end_symbol)).
    unfold aa_encoding, prepare, write_encoding.
    destruct (is_None label_col && is_None ohe_col), start_end_symbol,
      (truthy length_col) as [c|], ohe_col as [oc|], label_col as [lab|];
      try (destruct Hrc as [Hrc|Hrc]; [discriminate Hrc|]); keeps.
  - intros k Ho Hl. revert adata.
    change (keeps obsm k (aa_encoding read_col ohe_col label_col length_col
                            pad aa_to_id start_end_symbol)).
    unfold aa_encoding, prepare, write_encoding.
    destruct (is_None label_col && is_None ohe_col), start_end_symbol,
      (truthy length_col) as [c|], ohe_col as [oc|], label_col as [lab|];
      keeps.
  - intros k Hk. revert adata.
    change (keeps uns k (aa_encoding read_col ohe_col label_col length_col
                           pad aa_to_id start_end_symbol)).
    unfold aa_encoding, prepare, write_encoding.
    destruct (is_None label_col && is_None ohe_col), start_end_symbol,
      (truthy length_col) as [c|], ohe_col as [oc|], label_col as [lab|];
      keeps.
Qed.


(** A column without rows cannot be encoded. *)
Lemma aa_encoding_empty_column_raises_witness :
  exists e,
    (aa_encoding "cdr3" None (Some "label"%string) None (PadBool true) None
       true Cases.no_rows).1 = Raises e
    /\ e <> OutsideModel.
Proof.
  refine (aa_encoding_empty_column_raises "cdr3" None (Some "label"%string)
            None (PadBool true) None true Cases.no_rows _ _).
  - reflexivity.
  - discriminate.
Defined.

(** Encoding the demonstration column leaves the other entries alone. *)
Lemma aa_encoding_frame_witness :
  obs (aa_encoding "cdr3" None (Some "label"%string) None (PadBool true)
         None false Demo.adata).2 !! "cdr3"%string
  = obs Demo.adata !! "cdr3"%string.
Proof.
  refine (proj1 (aa_encoding_frame "cdr3" None (Some "label"%string) None
            (PadBool true) None false Demo.adata _) "cdr3"%string _ _ _ _).
  - vm_compute. discriminate.
  - left. reflexivity.
  - discriminate.
  - discriminate.
  - discriminate.
Defined.

(** A container without the sequence column. *)
Lemma aa_encoding_missing_read_col_witness :
  aa_encoding "cdr3" None (Some "label"%string) None (PadBool true) None
    true Cases.no_column
  = (Raises (KeyError "cdr3"), Cases.no_column).
Proof.
  refine (aa_encoding_missing_read_col "cdr3" None (Some "label"%string)
            None (PadBool true) None true Cases.no_column _ _).
  - reflexivity.
  - reflexivity.
Defined.

(** The demonstration column under a vocabulary that knows the letter A
    only: the look-up raises after the column was wrapped and the lengths
    were written. *)
Lemma aa_encoding_unknown_token_witness :
  (exists token,
      token ∈ concat (map chars ["<CASSL>"%string; "<CAS>"%string])
      /\ Cases.only_a !! token = None
      /\ (aa_encoding "cdr3" None (Some "label"%string)
            (Some "length"%string) (PadBool false) (Some Cases.only_a) true
            Demo.adata).1
         = Raises (KeyError (String token EmptyString)))
  /\ obs (aa_encoding "cdr3" None (Some "label"%string)
            (Some "length"%string) (PadBool false) (Some Cases.only_a) true
            Demo.adata).2 !! "cdr3"%string
     = Some (ColStr ["<CASSL>"%string; "<CAS>"%string])
  /\ obs (aa_encoding "cdr3" None (Some "label"%string)
            (Some "length"%string) (PadBool false) (Some Cases.only_a) true
            Demo.adata).2 !! "length"%string
     = Some (ColInt [7; 5]).
Proof.
  pose proof (aa_encoding_unknown_token "cdr3" None (Some "label"%string)
                (Some "length"%string) (PadBool false) Cases.only_a true
                ["CASSL"%string; "CAS"%string]
                ["<CASSL>"%string; "<CAS>"%string] Demo.adata) as H.
  destruct H as (Hraise & _ & Hwrapped & Hlengths & _).
  - reflexivity.
  - reflexivity.
  - discriminate.
  - reflexivity.
  - exists "<"%char. split; [|reflexivity].
    apply list_elem_of_In. left. reflexivity.
  - split; [exact Hraise|]. split; [now apply Hwrapped|].
    now apply (Hlengths "length"%string).
Defined.

End CodecProps.

(** ** Fusion of the latents and the start tokens *)

Module FusionProps.
Import Torch MoE MaskProps LossProps.

(** X11.  Whenever [calculate_kld_loss] returns, the latent it returns
    beside the loss is [get_latent_from_z] of the list of means: lines
    209 and 149 compute the same fusion. *)
Theorem calculate_kld_loss_fuses_means (self : MoEModel)
    (mu logvar : list (dense Qc)) (epoch : Z) (kld_loss : Qc)
    (z : dense Qc) :
  calculate_kld_loss self mu logvar epoch = Returns (kld_loss, z) ->
  get_latent_from_z mu = Returns z.
Proof.
  unfold calculate_kld_loss, get_latent_from_z.
  destruct (py_index mu 0) as [mu0|]; [|discriminate].
  destruct (py_index logvar 0) as [lv0|]; [|discriminate].
  destruct (py_index mu 1) as [mu1|]; [|discriminate].
  destruct (py_index logvar 1) as [lv1|]; [|discriminate].
  cbn [mbind outcome_bind].
  destruct (py_index (loss_weights self) 2) as [w2|]; [|discriminate].
  cbn [mbind outcome_bind].
  destruct (tadd mu0 mu1) as [s|]; [|discriminate].
  cbn [mbind outcome_bind mret outcome_ret]. intros [= _ <-]. reflexivity.
Qed.


Lemma without_chain_starts_agree {A} (L : nat) (r r' : list A) :
  (2 <= L)%nat -> length r = L -> length r' = L ->
  (forall j : nat, j <> 0%nat -> j <> (L / 2)%nat -> r !! j = r' !! j) ->
  without_chain_starts r = without_chain_starts r'.
Proof.
  intros HL Hr Hr' Hagree. apply list_eq. intros j.
  rewrite !lookup_without_chain_starts by lia. rewrite Hr, Hr'.
  assert (1 <= L / 2)%nat by (apply Nat.div_le_lower_bound; lia).
  destruct (Nat.ltb_spec j (L / 2 - 1)); apply Hagree; lia.
Qed.

(** X12.  When the reconstructions are two tokens shorter than the
    ground truth (line 193), the losses of [calculate_loss] do not depend
    on the ground-truth tokens at positions 0 and L // 2 of a row: two
    batches that agree everywhere else give the same result. *)
Theorem calculate_loss_ignores_start_tokens (self : MoEModel)
    (rp0 rp1 rna tp0 tp1 : dense Qc) (rows rows' : list (list Z)) (L : nat)
    (b0 l0 : nat) (v0 : list nat) (b1 l1 : nat) (v1 : list nat)
    (w0 w1 : Qc) :
  Forall2 (fun r r' =>
             length r = L /\ length r' = L
             /\ forall j : nat, j <> 0%nat -> j <> (L / 2)%nat ->
                  r !! j = r' !! j) rows rows' ->
  shape tp0 = b0 :: l0 :: v0 -> shape tp1 = b1 :: l1 :: v1 ->
  loss_weights self !! 0%nat = Some w0 ->
  loss_weights self !! 1%nat = Some w1 ->
  Z.of_nat l0 = Z.of_nat L - 2 ->
  calculate_loss self [rp0; rp1] rna [tp0; tp1]
    (Dense [length rows; L] (concat rows))
  = calculate_loss self [rp0; rp1] rna [tp0; tp1]
      (Dense [length rows'; L] (concat rows')).
Proof.
  intros Hrows H0 H1 Hw0 Hw1 Hlen.
  assert (2 <= L)%nat as HL by lia.
  rewrite !(calculate_loss_run self rp0 rp1 rna tp0 tp1 _
              b0 l0 v0 b1 l1 v1 _ L [] w0 w1) by done.
  unfold tcr_target. cbn [shape data numel foldr].
  apply Z.eqb_eq in Hlen. rewrite Hlen.
  change (Z.of_nat 1) with 1.
  assert (Forall (fun r => length r = L) rows) as Hl.
  { clear -Hrows. induction Hrows as [|r r' ? ? (Hr & _) _ IH];
      constructor; assumption. }
  assert (Forall (fun r => length r = L) rows') as Hl'.
  { clear -Hrows. induction Hrows as [|r r' ? ? (_ & Hr & _) _ IH];
      constructor; assumption. }
  rewrite !(keep_rows L) by assumption.
  assert (map without_chain_starts rows = map without_chain_starts rows')
    as ->; [|reflexivity].
  clear -Hrows HL. induction Hrows as [|r r' rows rows' (Hr & Hr' & Hj) _ IH];
    [reflexivity|].
  cbn [map]. f_equal; [|exact IH].
  now apply (without_chain_starts_agree L).
Qed.

(** The fused mean that [calculate_kld_loss] returns on the
    demonstration input. *)
Lemma calculate_kld_loss_fuses_means_witness :
  exists kld_loss z,
    calculate_kld_loss Demo.model [Demo.mu0; Demo.mu1]
      [Demo.logvar0; Demo.logvar0] 5 = Returns (kld_loss, z)
    /\ get_latent_from_z [Demo.mu0; Demo.mu1] = Returns z.
Proof.
  eexists _, _. split; [reflexivity|].
  refine (calculate_kld_loss_fuses_means Demo.model [Demo.mu0; Demo.mu1]
            [Demo.logvar0; Demo.logvar0] 5 _ _ _).
  reflexivity.
Defined.

(** The demonstration batch with start tokens 9 in place of 0. *)
Lemma calculate_loss_ignores_start_tokens_witness :
  calculate_loss Demo.model [Demo.rna_pred0; Demo.rna_pred1] Demo.rna
    [Demo.tcr_pred0; Demo.tcr_pred1]
    (Dense [length Demo.tcr_rows; 6%nat] (concat Demo.tcr_rows))
  = calculate_loss Demo.model [Demo.rna_pred0; Demo.rna_pred1] Demo.rna
      [Demo.tcr_pred0; Demo.tcr_pred1]
      (Dense [length Cases.tcr_rows'; 6%nat] (concat Cases.tcr_rows')).
Proof.
  refine (calculate_loss_ignores_start_tokens Demo.model
            Demo.rna_pred0 Demo.rna_pred1 Demo.rna
            Demo.tcr_pred0 Demo.tcr_pred1 Demo.tcr_rows Cases.tcr_rows' 6
            1 4 [2%nat] 1 4 [2%nat] 1%Qc 1%Qc _ _ _ _ _ _).
  - repeat constructor.
    intros [|[|[|[|[|[|j]]]]]] H0 H3; try reflexivity.
    + now destruct H0.
    + now destruct H3.
  - reflexivity.
  - reflexivity.
  - reflexivity.
  - reflexivity.
  - reflexivity.
Defined.

End FusionProps.

(** ** The reporting adapters on errors *)

Module KnnErrorProps.
Import KnnPrediction KnnProps.

Section Report.
Context {adata_t model_t embedding_func : Type}.
Variable get_model_prediction_function :
  model_t -> Z -> outcome embedding_func.
Variable run_imputation_evaluation :
  adata_t -> embedding_func -> string -> bool -> bool -> string ->
  outcome (dict (dict metric)).

(** X14.  The exceptions that [report_knn_prediction] lets through:
    it raises exactly when building the prediction function raises (line
    13, before the [try]), or when the evaluation returned a summary and
    one of the look-ups ['knn'], ['weighted avg'], ['f1-score'] of lines
    22 and 30 raises.  An exception of the evaluation itself is never
    raised. *)
Theorem report_knn_prediction_raises_iff (adata : adata_t)
    (model : model_t) (optimization_mode_params : dict string)
    (batch_size epoch : Z) (comet : bool) (st : effects) (e : exn) :
  (report_knn_prediction get_model_prediction_function
     run_imputation_evaluation adata model optimization_mode_params
     batch_size epoch comet st).1 = Raises e
  <-> get_model_prediction_function model batch_size = Raises e
      \/ exists test_embedding_func label_pred summary,
           get_model_prediction_function model batch_size
           = Returns test_embedding_func
           /\ dict_get optimization_mode_params "prediction_column"
              = Returns label_pred
           /\ run_imputation_evaluation adata test_embedding_func "val"
                true true label_pred = Returns summary
           /\ (metrics ← dict_get summary "knn";
               weighted ← dict_get metrics "weighted avg";
               metric_get weighted "f1-score") = Raises e.
Proof.
  unfold report_knn_prediction.
  unfold mbind, IO_bind, outcome_bind, io, try_except.
  destruct (get_model_prediction_function model batch_size) as [tf|e0].
  2:{ cbn [fst]. split.
      - intros [= ->]. now left.
      - intros [[= ->]|(? & ? & ? & [=] & _)]. reflexivity. }
  destruct (dict_get optimization_mode_params "prediction_column")
    as [label|e0].
  2:{ cbn. split; [discriminate|].
      intros [[=]|(? & ? & ? & _ & [=] & _)]. }
  destruct (run_imputation_evaluation adata tf "val" true true label)
    as [summary|e0] eqn:Heval.
  2:{ cbn. split; [discriminate|].
      intros [[=]|(? & ? & ? & [= <-] & [= <-] & Hs & _)].
      rewrite Heval in Hs. discriminate. }
  cbn [mret IO_ret].
  assert (forall P : Prop,
            (P <-> (metrics ← dict_get summary "knn";
                    weighted ← dict_get metrics "weighted avg";
                    metric_get weighted "f1-score") = Raises e) ->
            (P <-> (Returns tf = Raises e
                    \/ exists (f : embedding_func) l s,
                         Returns tf = Returns f
                         /\ Returns label = Returns l
                         /\ run_imputation_evaluation adata f "val" true
                              true l = Returns s
                         /\ (metrics ← dict_get s "knn";
                             weighted ← dict_get metrics "weighted avg";
                             metric_get weighted "f1-score") = Raises e)))
    as Hwrap.
  { intros P HP. rewrite HP. split.
    - intros H. right. now exists tf, label, summary.
    - intros [[=]|(? & ? & ? & [= <-] & [= <-] & Hs & H)].
      rewrite Heval in Hs. now injection Hs as <-. }
  apply Hwrap. clear Hwrap. unfold mbind, outcome_bind.
  destruct (dict_get summary "knn") as [metrics|e0];
    [|cbn; split; intros [= ->]; reflexivity].
  assert ((if comet
           then for_items metrics (fun antigen metric =>
                  if negb (String.eqb antigen "accuracy")
                  then comet_do (log_metrics metric antigen epoch)
                  else comet_do (log_metric "accuracy" metric epoch))
           else mret tt) st
          = (Returns tt,
             Effects (stdout st)
               (comet_calls st
                ++ if comet then map (logged epoch) metrics else [])))
    as ->.
  { destruct comet; [apply for_items_logs|].
    cbn. rewrite app_nil_r. now destruct st. }
  destruct (dict_get metrics "weighted avg") as [weighted|e0];
    [|cbn; split; intros [= ->]; reflexivity].
  destruct (metric_get weighted "f1-score"); cbn;
    [split; discriminate|split; intros [= ->]; reflexivity].
Qed.

(** X15.  The look-up of ['prediction_column'] sits inside the [try]:
    when the parameters lack that key, [report_knn_prediction] prints
    its one line and returns [None], as for a failed evaluation, and
    makes no call on the tracker. *)
Theorem report_knn_prediction_missing_column (adata : adata_t)
    (model : model_t) (optimization_mode_params : dict string)
    (batch_size epoch : Z) (comet : bool) (st : effects)
    (test_embedding_func : embedding_func) :
  get_model_prediction_function model batch_size
  = Returns test_embedding_func ->
  (forall label_pred,
     (("prediction_column"%string, label_pred) : string * string)
     ∉ optimization_mode_params) ->
  report_knn_prediction get_model_prediction_function
    run_imputation_evaluation adata model optimization_mode_params
    batch_size epoch comet st
  = (Returns None,
     Effects (stdout st ++ ["kNN did not work"%string]) (comet_calls st)).
Proof.
  intros Hfn Hmissing.
  assert (dict_get optimization_mode_params "prediction_column"
          = Raises (KeyError "prediction_column")) as Hget.
  { induction optimization_mode_params as [|[k v] d IH]; [reflexivity|].
    cbn [dict_get]. destruct (String.eqb_spec k "prediction_column") as [->|_].
    - exfalso. apply (Hmissing v). left.
    - apply IH. intros l Hl. apply (Hmissing l). now right. }
  unfold report_knn_prediction.
  unfold mbind, IO_bind, io, try_except. rewrite Hfn, Hget. reflexivity.
Qed.

(** X16.  When the metrics lack the weighted-average F1 score, the
    exception of line 30 is raised only after the loop of lines 24-29:
    with a tracker, every entry of the metrics has been logged by then. *)
Theorem report_knn_prediction_incomplete_summary (adata : adata_t)
    (model : model_t) (optimization_mode_params : dict string)
    (batch_size epoch : Z) (comet : bool) (st : effects)
    (test_embedding_func : embedding_func) (label_pred : string)
    (summary : dict (dict metric)) (metrics : dict metric) (e : exn) :
  get_model_prediction_function model batch_size
  = Returns test_embedding_func ->
  dict_get optimization_mode_params "prediction_column" = Returns label_pred ->
  run_imputation_evaluation adata test_embedding_func "val" true true
    label_pred = Returns summary ->
  dict_get summary "knn" = Returns metrics ->
  (weighted ← dict_get metrics "weighted avg"; metric_get weighted "f1-score")
  = Raises e ->
  report_knn_prediction get_model_prediction_function
    run_imputation_evaluation adata model optimization_mode_params
    batch_size epoch comet st
  = (Raises e,
     Effects (stdout st)
       (comet_calls st ++ if comet then map (logged epoch) metrics else [])).
Proof.
  intros Hfn Hlabel He Hknn Hf1.
  unfold report_knn_prediction.
  unfold mbind, IO_bind, io, try_except. rewrite Hfn, Hlabel, He.
  cbn [mret IO_ret]. rewrite Hknn.
  unfold mbind, outcome_bind in Hf1.
  destruct comet.
  - rewrite for_items_logs.
    destruct (dict_get metrics "weighted avg") as [weighted|e0].
    + destruct (metric_get weighted "f1-score"); [discriminate|].
      now injection Hf1 as ->.
    + now injection Hf1 as ->.
  - cbn [mret IO_ret]. rewrite app_nil_r.
    destruct (dict_get metrics "weighted avg") as [weighted|e0].
    + destruct (metric_get weighted "f1-score"); [discriminate|].
      injection Hf1 as ->. now destruct st.
    + injection Hf1 as ->. now destruct st.
Qed.

End Report.
(** Parameters without the prediction column. *)
Lemma report_knn_prediction_missing_column_witness :
  report_knn_prediction Demo.prediction_function Demo.working_evaluation
    tt tt Cases.no_params 32 1 true Demo.quiet
  = (Returns None, Effects ["kNN did not work"%string] []).
Proof.
  refine (report_knn_prediction_missing_column Demo.prediction_function
            Demo.working_evaluation tt tt Cases.no_params 32 1 true
            Demo.quiet tt _ _).
  - reflexivity.
  - intros label_pred Hin. now apply elem_of_nil in Hin.
Defined.

(** Metrics that hold the accuracy only: it is logged, then the look-up
    of the weighted average raises. *)
Lemma report_knn_prediction_incomplete_summary_witness :
  report_knn_prediction Demo.prediction_function Cases.incomplete_evaluation
    tt tt Demo.params 32 1 true Demo.quiet
  = (Raises (KeyError "weighted avg"),
     Effects [] [log_metric "accuracy" (Number half) 1]).
Proof.
  refine (report_knn_prediction_incomplete_summary
            Demo.prediction_function Cases.incomplete_evaluation tt tt
            Demo.params 32 1 true Demo.quiet tt "binding_name"
            [("knn"%string, Cases.accuracy_only)] Cases.accuracy_only
            (KeyError "weighted avg") _ _ _ _ _); reflexivity.
Defined.

End KnnErrorProps.

Module ModulationProps.
Import KnnPrediction ModulationPrediction.

Lemma for_items_logs_summary (summary : dict metric) (epoch : Z)
    (st : list ModulationPrediction.comet_call) :
  ModulationPrediction.for_items summary (fun key value =>
    if String.eqb key "avg_r_squared" then
      ModulationPrediction.comet_do
        (ModulationPrediction.log_metric key value epoch epoch)
    else
      ModulationPrediction.comet_do
        (ModulationPrediction.log_metrics value key epoch epoch)) st
  = (Returns tt, st ++ map (ModulationPrediction.logged epoch) summary).
Proof.
  revert st. induction summary as [|[k v] summary IH]; intros st.
  - cbn. now rewrite app_nil_r.
  - cbn [ModulationPrediction.for_items map].
    unfold mbind at 1, Log_bind at 1.
    assert ((if String.eqb k "avg_r_squared"
             then ModulationPrediction.comet_do
                    (ModulationPrediction.log_metric k v epoch epoch)
             else ModulationPrediction.comet_do
                    (ModulationPrediction.log_metrics v k epoch epoch)) st
            = (Returns tt, st ++ [ModulationPrediction.logged epoch (k, v)]))
      as ->.
    { unfold ModulationPrediction.logged. cbn [fst snd].
      now destruct (String.eqb k "avg_r_squared"). }
    rewrite IH. now rewrite <- app_assoc.
Qed.

Section Report.
Context {adata_t model_t : Type}.
Variable run_scgen_cross_validation :
  adata_t -> string -> model_t -> string -> string -> string -> Z ->
  outcome (dict metric).

(** X17.  When the four parameters are present and the cross-validation
    returns a summary with an entry ['avg_r_squared'],
    [report_modulation_prediction] returns that entry with [operator.gt],
    after one tracker call per entry of the summary, in its order, if a
    tracker is given: [log_metric] for ['avg_r_squared'], [log_metrics]
    with the key as prefix for the others. *)
Theorem report_modulation_prediction_returns (adata : adata_t)
    (model : model_t) (optimization_mode_params : dict string)
    (batch_size epoch : Z) (comet : bool)
    (st : list ModulationPrediction.comet_call)
    (column_fold column_perturbation indicator_perturbation column_cluster
       : string)
    (summary : dict metric) (score : metric) :
  dict_get optimization_mode_params "column_fold" = Returns column_fold ->
  dict_get optimization_mode_params "column_perturbation"
  = Returns column_perturbation ->
  dict_get optimization_mode_params "indicator_perturbation"
  = Returns indicator_perturbation ->
  dict_get optimization_mode_params "column_cluster"
  = Returns column_cluster ->
  run_scgen_cross_validation adata column_fold model column_perturbation
    indicator_perturbation column_cluster batch_size = Returns summary ->
  dict_get summary "avg_r_squared" = Returns score ->
  report_modulation_prediction run_scgen_cross_validation adata model
    optimization_mode_params batch_size epoch comet st
  = (Returns (score, gt),
     st ++ if comet then map (ModulationPrediction.logged epoch) summary
           else []).
Proof.
  intros Hf Hp Hi Hc Hrun Hscore.
  unfold report_modulation_prediction.
  unfold mbind, Log_bind, pure. rewrite Hf, Hp, Hi, Hc, Hrun, Hscore.
  destruct comet.
  - now rewrite for_items_logs_summary.
  - cbn [mret Log_ret]. now rewrite app_nil_r.
Qed.

(** X18.  When [report_modulation_prediction] raises (a missing
    parameter, a failing cross-validation, a summary without
    ['avg_r_squared']) it has made no call on the tracker. *)
Theorem report_modulation_prediction_raises_before_logging (adata : adata_t)
    (model : model_t) (optimization_mode_params : dict string)
    (batch_size epoch : Z) (comet : bool)
    (st : list ModulationPrediction.comet_call) (e : exn) :
  (report_modulation_prediction run_scgen_cross_validation adata model
     optimization_mode_params batch_size epoch comet st).1 = Raises e ->
  (report_modulation_prediction run_scgen_cross_validation adata model
     optimization_mode_params batch_size epoch comet st).2 = st.
Proof.
  unfold report_modulation_prediction.
  unfold mbind, Log_bind, pure.
  destruct (dict_get optimization_mode_params "column_fold") as [cf|];
    [|reflexivity].
  destruct (dict_get optimization_mode_params "column_perturbation") as [cp|];
    [|reflexivity].
  destruct (dict_get optimization_mode_params "indicator_perturbation")
    as [ip|]; [|reflexivity].
  destruct (dict_get optimization_mode_params "column_cluster") as [cc|];
    [|reflexivity].
  destruct (run_scgen_cross_validation adata cf model cp ip cc batch_size)
    as [summary|]; [|reflexivity].
  destruct (dict_get summary "avg_r_squared") as [score|]; [|reflexivity].
  destruct comet.
  - rewrite for_items_logs_summary. discriminate.
  - discriminate.
Qed.

End Report.
(** A summary of one cluster and the average. *)
Lemma report_modulation_prediction_returns_witness :
  report_modulation_prediction Cases.cross_validation tt tt
    Cases.modulation_params 32 1 true []
  = (Returns (Number half, gt),
     [ModulationPrediction.log_metrics Cases.per_cluster "cluster_0" 1 1;
      ModulationPrediction.log_metric "avg_r_squared" (Number half) 1 1]).
Proof.
  refine (report_modulation_prediction_returns Cases.cross_validation tt tt
            Cases.modulation_params 32 1 true [] "fold" "treatment" "pre"
            "cluster" Cases.modulation_summary (Number half)
            _ _ _ _ _ _); reflexivity.
Defined.

(** Parameters without the fold column. *)
Lemma report_modulation_prediction_raises_before_logging_witness :
  (report_modulation_prediction Cases.cross_validation tt tt
     Cases.no_params 32 1 true []).2 = [].
Proof.
  refine (report_modulation_prediction_raises_before_logging
            Cases.cross_validation tt tt Cases.no_params 32 1 true []
            (KeyError "column_fold") _).
  reflexivity.
Defined.

End ModulationProps.

(** ** The stratified group split *)

Module SplitProps.
Import Utils Split.

Lemma iloc_rows {A} (group : list A) (inds : list nat) (rows : list A) :
  list_comp (py_index group) inds = Returns rows ->
  Forall2 (fun i r => group !! i = Some r) inds rows.
Proof.
  revert rows. induction inds as [|i inds IH]; intros rows; cbn [list_comp].
  - intros [= <-]. constructor.
  - unfold py_index at 1. destruct (group !! i) as [r|] eqn:Ei; [|discriminate].
    destruct (list_comp (py_index group) inds) as [rs|]; [|discriminate].
    intros [= <-]. constructor; [exact Ei|now apply IH].
Qed.

Lemma iloc_row_position {A} (group : list A) inds rows r :
  Forall2 (fun i r => group !! i = Some r) inds rows ->
  r ∈ rows -> exists i, i ∈ inds /\ group !! i = Some r.
Proof.
  induction 1 as [|i r' inds rows Hi _ IH]; intros Hr.
  - now apply elem_of_nil in Hr.
  - apply elem_of_cons in Hr as [->|Hr].
    + exists i. split; [apply list_elem_of_here|exact Hi].
    + destruct (IH Hr) as (j & Hj & Hgj).
      exists j. split; [now apply list_elem_of_further|exact Hgj].
Qed.

Lemma iloc_position_row {A} (group : list A) inds rows i :
  Forall2 (fun i r => group !! i = Some r) inds rows ->
  i ∈ inds -> exists r, r ∈ rows /\ group !! i = Some r.
Proof.
  induction 1 as [|j r inds rows Hj _ IH]; intros Hi.
  - now apply elem_of_nil in Hi.
  - apply elem_of_cons in Hi as [->|Hi].
    + exists r. split; [apply list_elem_of_here|exact Hj].
    + destruct (IH Hi) as (r' & Hr' & Hg).
      exists r'. split; [now apply list_elem_of_further|exact Hg].
Qed.

Lemma elem_of_map {A B} (f : A -> B) (l : list A) (y : B) :
  y ∈ map f l <-> exists x, x ∈ l /\ f x = y.
Proof.
  rewrite list_elem_of_In, in_map_iff. split.
  - intros (x & <- & Hx). exists x. now rewrite list_elem_of_In.
  - intros (x & Hx & <-). exists x. now rewrite <- list_elem_of_In.
Qed.

Lemma lookup_map {A B} (f : A -> B) (l : list A) (i : nat) :
  map f l !! i = f <$> l !! i.
Proof.
  revert i. induction l as [|x l IH]; intros [|i]; try reflexivity.
  cbn. apply IH.
Qed.

Lemma filter_all {A} (P : A -> Prop) `{!forall x, Decision (P x)}
    (l : list A) :
  (forall x, x ∈ l -> P x) -> filter P l = l.
Proof.
  induction l as [|x l IH]; intros Hall; [reflexivity|].
  rewrite filter_cons_True by (apply Hall, list_elem_of_here).
  f_equal. apply IH. intros y Hy. now apply Hall, list_elem_of_further.
Qed.

Lemma filter_none {A} (P : A -> Prop) `{!forall x, Decision (P x)}
    (l : list A) :
  (forall x, x ∈ l -> ~ P x) -> filter P l = [].
Proof.
  induction l as [|x l IH]; intros Hnone; [reflexivity|].
  rewrite filter_cons_False by (apply Hnone, list_elem_of_here).
  apply IH. intros y Hy. now apply Hnone, list_elem_of_further.
Qed.

Section Properties.
Context {row : Type}.
Variable stratify_of : row -> option string.
Variable group_of : row -> string.
Variable group_shuffle_split :
  Qc -> Z -> list string -> outcome (list nat * list nat).

(** One round of the loop appends to both lists; what it appends was in
    neither list, the two additions share no group when the splitter
    keeps groups together, and every row of the stratum is placed when
    the splitter places every position or the stratum has one row. *)
Lemma split_group_spec (val_split : Qc) (random_seed : Z)
    (all_train all_test : list string) (group : list row)
    (acc : list string * list string) :
  split_group group_of group_shuffle_split val_split random_seed
    all_train all_test group = Returns acc ->
  exists new_train new_test,
    acc = (all_train ++ new_train, all_test ++ new_test)
    /\ (forall g, g ∈ new_train ++ new_test ->
        (g ∉ all_train ++ all_test)
        /\ exists r, r ∈ group /\ group_of r = g)
    /\ (keeps_groups_together group_shuffle_split ->
        forall g, g ∈ new_train -> g ∉ new_test)
    /\ (places_every_position group_shuffle_split
        \/ (length group <= 1)%nat ->
        forall r, r ∈ group -> group_of r ∈ acc.1 ++ acc.2)
    /\ ((length group <= 1)%nat -> new_test = []).
Proof.
  unfold split_group.
  set (fresh := filter (fun r => group_of r ∉ all_train ++ all_test) group).
  assert (forall r, r ∈ fresh ->
            (group_of r ∉ all_train ++ all_test)
            /\ exists r', r' ∈ group /\ group_of r' = group_of r)
    as Hfresh.
  { intros r Hr. apply list_elem_of_filter in Hr as [Hnew Hr].
    split; [exact Hnew|]. now exists r. }
  assert (forall r, r ∈ group -> group_of r ∈ all_train ++ all_test
                                 \/ r ∈ fresh) as Hsplit.
  { intros r Hr. destruct (decide (group_of r ∈ all_train ++ all_test));
      [now left|right]. now apply list_elem_of_filter. }
  assert (length fresh <= length group)%nat as Hlen
    by apply length_filter.
  assert (forall (a b c d : list string) g,
            g ∈ a ++ b \/ g ∈ c ++ d -> g ∈ (a ++ c) ++ (b ++ d)) as Hmix.
  { intros a b c d g. rewrite !elem_of_app. tauto. }
  destruct (Nat.eqb_spec (length fresh) 0) as [Hempty|Hnonempty].
  - intros [= <-]. exists [], []. rewrite !app_nil_r.
    apply nil_length_inv in Hempty.
    split; [reflexivity|]. split; [|split; [|split]].
    + intros g Hg. now apply elem_of_nil in Hg.
    + intros _ g Hg. now apply elem_of_nil in Hg.
    + intros _ r Hr. destruct (Hsplit r Hr) as [Hr'|Hr']; [exact Hr'|].
      rewrite Hempty in Hr'. now apply elem_of_nil in Hr'.
    + reflexivity.
  - destruct (Nat.ltb_spec 1 (length fresh)) as [Hmany|Hone].
    + destruct (group_shuffle_split val_split random_seed
                  (map group_of fresh)) as [inds|] eqn:Hinds;
        [|discriminate].
      cbn [mbind outcome_bind]. unfold iloc.
      destruct (list_comp (py_index fresh) inds.1) as [train_rows|] eqn:Htr;
        [|discriminate].
      destruct (list_comp (py_index fresh) inds.2) as [test_rows|] eqn:Hte;
        [|discriminate].
      cbn [mbind outcome_bind]. intros [= <-].
      apply iloc_rows in Htr, Hte.
      exists (map group_of train_rows), (map group_of test_rows).
      split; [reflexivity|]. split; [|split; [|split]].
      * intros g Hg. apply elem_of_app in Hg as [Hg|Hg];
          apply elem_of_map in Hg as (r & Hr & <-); apply Hfresh.
        -- destruct (iloc_row_position _ _ _ _ Htr Hr) as (i & _ & Hi).
           eapply list_elem_of_lookup_2, Hi.
        -- destruct (iloc_row_position _ _ _ _ Hte Hr) as (i & _ & Hi).
           eapply list_elem_of_lookup_2, Hi.
      * intros Hkeeps g Hg Hg'.
        apply elem_of_map in Hg as (r & Hr & <-).
        apply elem_of_map in Hg' as (r' & Hr' & Heq).
        destruct (iloc_row_position _ _ _ _ Htr Hr) as (i & Hi & Hgi).
        destruct (iloc_row_position _ _ _ _ Hte Hr') as (j & Hj & Hgj).
        apply (Hkeeps _ _ _ _ i j (group_of r) Hinds Hi Hj).
        -- now rewrite lookup_map, Hgi.
        -- now rewrite lookup_map, Hgj, <- Heq.
      * intros [Hplaces|Hsmall]; [|lia]. intros r Hr. cbn [fst snd].
        apply Hmix. destruct (Hsplit r Hr) as [Hr'|Hr']; [now left|right].
        apply list_elem_of_lookup_1 in Hr' as [i Hi].
        assert (i < length (map group_of fresh))%nat as Hlt.
        { rewrite length_map. eapply lookup_lt_Some, Hi. }
        apply elem_of_app.
        destruct (Hplaces _ _ _ _ i Hinds Hlt) as [Hin|Hin].
        -- left. destruct (iloc_position_row _ _ _ _ Htr Hin)
             as (r' & Hr'' & Hgi).
           apply elem_of_map. exists r'. split; [exact Hr''|congruence].
        -- right. destruct (iloc_position_row _ _ _ _ Hte Hin)
             as (r' & Hr'' & Hgi).
           apply elem_of_map. exists r'. split; [exact Hr''|congruence].
      * lia.
    + intros [= <-]. exists (map group_of fresh), []. rewrite !app_nil_r.
      split; [reflexivity|]. split; [|split; [|split]].
      * intros g Hg. apply elem_of_map in Hg as (r & Hr & <-).
        now apply Hfresh.
      * intros _ g _ Hg. now apply elem_of_nil in Hg.
      * intros _ r Hr. cbn [fst snd].
        destruct (Hsplit r Hr) as [Hr'|Hr'].
        -- revert Hr'. rewrite !elem_of_app. tauto.
        -- apply elem_of_app. left. apply elem_of_app. right.
           apply elem_of_map. now exists r.
      * reflexivity.
Qed.

(** The loop over the strata. *)
Lemma for_groups_spec (val_split : Qc) (random_seed : Z)
    (groups : list (string * list row)) (all_train all_test : list string)
    (acc : list string * list string) :
  for_groups group_of group_shuffle_split val_split random_seed groups
    all_train all_test = Returns acc ->
  (keeps_groups_together group_shuffle_split ->
   (forall g, g ∈ all_train -> g ∉ all_test) ->
   forall g, g ∈ acc.1 -> g ∉ acc.2)
  /\ (places_every_position group_shuffle_split
      \/ Forall (fun kg => length kg.2 <= 1)%nat groups ->
      forall kg r, kg ∈ groups -> r ∈ kg.2 ->
        group_of r ∈ acc.1 ++ acc.2)
  /\ (forall g, g ∈ all_train ++ all_test -> g ∈ acc.1 ++ acc.2)
  /\ (forall g, g ∈ acc.1 ++ acc.2 ->
        g ∈ all_train ++ all_test
        \/ exists kg r, kg ∈ groups /\ r ∈ kg.2 /\ group_of r = g)
  /\ (Forall (fun kg => length kg.2 <= 1)%nat groups ->
      acc.2 = all_test).
Proof.
  revert all_train all_test.
  induction groups as [|[group_id group] groups IH];
    intros all_train all_test; cbn [for_groups].
  - intros [= <-]. cbn [fst snd]. repeat split.
    + intros _ Hdisj. exact Hdisj.
    + intros _ kg r Hkg. now apply elem_of_nil in Hkg.
    + tauto.
    + tauto.
  - destruct (split_group group_of group_shuffle_split val_split random_seed
                all_train all_test group) as [acc1|] eqn:Hround;
      [|discriminate].
    cbn [mbind outcome_bind]. intros Hrest.
    destruct (split_group_spec _ _ _ _ _ _ Hround)
      as (nt & ne & -> & Hnew & Hkeep & Hplaced & Hsmall).
    cbn [fst snd] in *.
    destruct (IH _ _ Hrest)
      as (IHkeep & IHplaced & IHgrow & IHfrom & IHsmall).
    split; [|split; [|split; [|split]]].
    + intros Hkeeps Hdisj. apply IHkeep; [exact Hkeeps|].
      intros g Hg Hg'. apply elem_of_app in Hg as [Hg|Hg];
        apply elem_of_app in Hg' as [Hg'|Hg'].
      * exact (Hdisj g Hg Hg').
      * apply (Hnew g); apply elem_of_app; tauto.
      * apply (Hnew g); apply elem_of_app; tauto.
      * exact (Hkeep Hkeeps g Hg Hg').
    + intros Hcase kg r Hkg Hr.
      apply elem_of_cons in Hkg as [->|Hkg].
      * apply IHgrow, Hplaced; [|exact Hr].
        destruct Hcase as [Hp|Hs]; [now left|right].
        now apply Forall_cons_1 in Hs as [Hs _].
      * apply (IHplaced ltac:(destruct Hcase as [Hp|Hs];
                 [now left|right; now apply Forall_cons_1 in Hs as [_ Hs]])
                 kg r Hkg Hr).
    + intros g Hg. apply IHgrow. revert Hg. rewrite !elem_of_app. tauto.
    + intros g Hg. destruct (IHfrom g Hg) as [Hold|(kg & r & Hkg & Hr & Hgr)].
      * assert (g ∈ all_train ++ all_test \/ g ∈ nt ++ ne) as [H|H]
          by (revert Hold; rewrite !elem_of_app; tauto); [now left|].
        right. destruct (Hnew g H) as (_ & r & Hr & Hgr).
        exists (group_id, group), r.
        split; [apply list_elem_of_here|now split].
      * right. exists kg, r.
        split; [now apply list_elem_of_further|now split].
    + intros Hs. apply Forall_cons_1 in Hs as [Hs Hss].
      rewrite (IHsmall Hss), (Hsmall Hs). apply app_nil_r.
Qed.

(** Strata of one row are split without the splitter, so the loop over
    them returns. *)
Lemma for_groups_single_rows_returns (val_split : Qc) (random_seed : Z)
    (groups : list (string * list row)) (all_train all_test : list string) :
  Forall (fun kg => length kg.2 <= 1)%nat groups ->
  exists acc,
    for_groups group_of group_shuffle_split val_split random_seed groups
      all_train all_test = Returns acc.
Proof.
  intros Hsmall. revert all_train all_test.
  induction Hsmall as [|[group_id group] groups Hone _ IH];
    intros all_train all_test; cbn [for_groups]; [eauto|].
  cbn [snd] in Hone. unfold split_group at 1.
  pose proof (length_filter (fun r => group_of r ∉ all_train ++ all_test)
                group) as Hlen.
  destruct (Nat.eqb_spec
              (length (filter (fun r => group_of r ∉ all_train ++ all_test)
                         group)) 0); [apply IH|].
  destruct (Nat.ltb_spec 1
              (length (filter (fun r => group_of r ∉ all_train ++ all_test)
                         group))); [lia|apply IH].
Qed.

(** The strata hold the rows with a label, each under its label. *)
Lemma groupby_member (df : list row) (r : row) (key : string) :
  r ∈ df -> stratify_of r = Some key ->
  exists kg, kg ∈ groupby stratify_of df /\ r ∈ kg.2.
Proof.
  intros Hr Hkey. unfold groupby.
  exists (key, filter (fun r' => stratify_of r' = Some key) df).
  split.
  - apply elem_of_map. exists key. split; [|reflexivity].
    rewrite merge_sort_Permutation, elem_of_remove_dups.
    apply list_elem_of_omap. now exists r.
  - cbn [snd]. now apply list_elem_of_filter.
Qed.

Lemma groupby_rows (df : list row) (kg : string * list row) (r : row) :
  kg ∈ groupby stratify_of df -> r ∈ kg.2 ->
  r ∈ df /\ stratify_of r = Some kg.1.
Proof.
  intros Hkg Hr. apply elem_of_map in Hkg as (key & _ & <-).
  cbn [fst snd] in *. apply list_elem_of_filter in Hr as [Hkey Hr].
  now split.
Qed.

Lemma stratum_of_distinct (df : list row) (key : string) :
  NoDup (omap stratify_of df) ->
  (length (filter (fun r => stratify_of r = Some key) df) <= 1)%nat.
Proof.
  induction df as [|x df IH]; intros Hnd; [cbn; lia|].
  change (omap stratify_of (x :: df))
    with (match stratify_of x with
          | Some y => y :: omap stratify_of df
          | None => omap stratify_of df
          end) in Hnd.
  destruct (decide (stratify_of x = Some key)) as [Heq|Hne].
  - rewrite Heq in Hnd. apply NoDup_cons in Hnd as [Hx Hnd].
    rewrite filter_cons_True by exact Heq.
    rewrite (filter_none (fun r => stratify_of r = Some key) df);
      [cbn; lia|].
    intros y Hy Hkey. apply Hx. apply list_elem_of_omap. now exists y.
  - rewrite filter_cons_False by exact Hne. apply IH.
    destruct (stratify_of x); [now apply NoDup_cons in Hnd as [_ Hnd]|
                               exact Hnd].
Qed.

Lemma groupby_distinct (df : list row) :
  NoDup (omap stratify_of df) ->
  Forall (fun kg => length kg.2 <= 1)%nat (groupby stratify_of df).
Proof.
  intros Hnd. apply Forall_forall. intros kg Hkg.
  apply elem_of_map in Hkg as (key & _ & <-). cbn [snd].
  now apply stratum_of_distinct.
Qed.

(** The groups that the loop collects are those of the rows with a
    label, when every row of a stratum is placed. *)
Lemma collected_groups (df : list row) (val_split : Qc) (random_seed : Z)
    (acc : list string * list string) :
  for_groups group_of group_shuffle_split val_split random_seed
    (groupby stratify_of df) [] [] = Returns acc ->
  places_every_position group_shuffle_split
  \/ Forall (fun kg => length kg.2 <= 1)%nat (groupby stratify_of df) ->
  forall g, g ∈ acc.1 ++ acc.2
            <-> g ∈ map group_of
                      (filter (fun r => is_Some (stratify_of r)) df).
Proof.
  intros Hloop Hcase g.
  destruct (for_groups_spec _ _ _ _ _ _ Hloop)
    as (_ & Hcover & _ & Hfrom & _).
  rewrite elem_of_map. split.
  - intros Hg. destruct (Hfrom g Hg) as [Hnil|(kg & r & Hkg & Hr & Hgr)];
      [now apply elem_of_nil in Hnil|].
    destruct (groupby_rows df kg r Hkg Hr) as [Hdf Hlab].
    exists r. split; [|exact Hgr].
    apply list_elem_of_filter. split; [now rewrite Hlab|exact Hdf].
  - intros (r & Hr & <-). apply list_elem_of_filter in Hr as [[key Hkey] Hr].
    destruct (groupby_member df r key Hr Hkey) as (kg & Hkg & Hrkg).
    exact (Hcover Hcase kg r Hkg Hrkg).
Qed.

(** X19.  When [GroupShuffleSplit] puts no group on both sides of a
    split, neither does [stratified_group_shuffle_split]: no row of the
    returned training frame has the group of a row of the returned test
    frame, also for groups that occur under several labels. *)
Theorem stratified_group_shuffle_split_no_leakage (df : list row)
    (val_split : Qc) (random_seed : Z) (train test : list row) :
  keeps_groups_together group_shuffle_split ->
  stratified_group_shuffle_split stratify_of group_of group_shuffle_split
    df val_split random_seed = Returns (train, test) ->
  forall r r', r ∈ train -> r' ∈ test -> group_of r <> group_of r'.
Proof.
  intros Hkeeps. unfold stratified_group_shuffle_split.
  destruct (for_groups group_of group_shuffle_split val_split random_seed
              (groupby stratify_of df) [] []) as [acc|] eqn:Hloop;
    [|discriminate].
  cbn [mbind outcome_bind]. intros [= <- <-] r r' Hr Hr' Heq.
  apply list_elem_of_filter in Hr as [Hr _].
  apply list_elem_of_filter in Hr' as [Hr' _].
  destruct (for_groups_spec _ _ _ _ _ _ Hloop) as (Hdisj & _).
  apply (Hdisj Hkeeps (fun g Hg _ => proj1 (elem_of_nil g) Hg)
           (group_of r) Hr).
  now rewrite Heq.
Qed.

(** X20.  When [GroupShuffleSplit] places every position on one side,
    the rows that [stratified_group_shuffle_split] returns, in the
    training or in the test frame, are exactly the rows of the frame
    whose group occurs in a row with a label; in particular every row
    with a label is returned, and a row without a label is returned only
    if its group also occurs under a label. *)
Theorem stratified_group_shuffle_split_places_labelled_groups
    (df : list row) (val_split : Qc) (random_seed : Z)
    (train test : list row) :
  places_every_position group_shuffle_split ->
  stratified_group_shuffle_split stratify_of group_of group_shuffle_split
    df val_split random_seed = Returns (train, test) ->
  forall r,
    r ∈ train \/ r ∈ test
    <-> r ∈ df
        /\ exists r', r' ∈ df /\ is_Some (stratify_of r')
                      /\ group_of r' = group_of r.
Proof.
  intros Hplaces. unfold stratified_group_shuffle_split.
  destruct (for_groups group_of group_shuffle_split val_split random_seed
              (groupby stratify_of df) [] []) as [acc|] eqn:Hloop;
    [|discriminate].
  cbn [mbind outcome_bind]. intros [= <- <-] r.
  pose proof (collected_groups df val_split random_seed acc Hloop
                (or_introl Hplaces) (group_of r)) as Hgroups.
  rewrite elem_of_app, elem_of_map in Hgroups.
  rewrite !list_elem_of_filter. split.
  - intros Hin.
    assert (r ∈ df) as Hdf by tauto. split; [exact Hdf|].
    destruct (proj1 Hgroups) as (r' & Hr' & Hgr); [tauto|].
    apply list_elem_of_filter in Hr' as [Hlab Hr'].
    now exists r'.
  - intros (Hdf & r' & Hr' & Hlab & Hgr).
    destruct (proj2 Hgroups) as [Hin|Hin]; [|tauto|tauto].
    exists r'. split; [|exact Hgr]. now apply list_elem_of_filter.
Qed.

(** X21.  When no two rows with a label share it, the splitter is never
    asked: the test frame is empty and the training frame holds the rows
    whose group occurs in a row with a label, which is the whole frame
    when no label is missing. *)
Theorem stratified_group_shuffle_split_single_rows (df : list row)
    (val_split : Qc) (random_seed : Z) :
  NoDup (omap stratify_of df) ->
  let run :=
    stratified_group_shuffle_split stratify_of group_of group_shuffle_split
      df val_split random_seed in
  run = Returns
          (filter (fun r =>
                     group_of r
                     ∈ map group_of
                         (filter (fun r' => is_Some (stratify_of r')) df))
                  df, [])
  /\ (Forall (fun r => is_Some (stratify_of r)) df -> run = Returns (df, [])).
Proof.
  intros Hnd run.
  pose proof (groupby_distinct df Hnd) as Hsmall.
  assert (run = Returns
                  (filter (fun r =>
                     group_of r
                     ∈ map group_of
                         (filter (fun r' => is_Some (stratify_of r')) df))
                     df, [])) as Hrun.
  { unfold run, stratified_group_shuffle_split.
    destruct (for_groups_single_rows_returns val_split random_seed
                (groupby stratify_of df) [] [] Hsmall) as [acc Hloop].
    rewrite Hloop. cbn [mbind outcome_bind].
    destruct (for_groups_spec _ _ _ _ _ _ Hloop)
      as (_ & _ & _ & _ & Htest).
    specialize (Htest Hsmall).
    pose proof (collected_groups df val_split random_seed acc Hloop
                  (or_intror Hsmall)) as Hgroups.
    rewrite Htest. rewrite Htest in Hgroups.
    rewrite (filter_none (fun r => group_of r ∈ [])) by
      (intros x _ Hx; now apply elem_of_nil in Hx).
    do 2 f_equal. apply list_filter_iff. intros r.
    rewrite <- Hgroups, app_nil_r. reflexivity. }
  split; [exact Hrun|].
  intros Hall. rewrite Hrun. do 2 f_equal. apply filter_all.
  intros r Hr. apply elem_of_map. exists r. split; [|reflexivity].
  apply list_elem_of_filter. split; [|exact Hr].
  rewrite Forall_forall in Hall. now apply Hall.
Qed.

End Properties.
(** The demonstration splitter keeps its promises. *)
Lemma positions_spec (p : string -> bool) (groups : list string)
    (i j : nat) :
  j ∈ Cases.positions p groups i
  <-> exists g, (i <= j)%nat /\ groups !! (j - i)%nat = Some g /\ p g = true.
Proof.
  revert i. induction groups as [|g groups IH]; intros i;
    cbn [Cases.positions].
  - split; [intros H; now apply elem_of_nil in H|].
    intros (g & _ & H & _). discriminate H.
  - rewrite elem_of_app, IH. split.
    + intros [Hhere|(g' & Hle & Hg' & Hp)].
      * destruct (p g) eqn:Hp; [|now apply elem_of_nil in Hhere].
        apply list_elem_of_singleton in Hhere as ->.
        exists g. rewrite Nat.sub_diag. now split.
      * exists g'. split; [lia|]. split; [|exact Hp].
        replace (j - i)%nat with (S (j - S i)) by lia. exact Hg'.
    + intros (g' & Hle & Hg' & Hp).
      destruct (decide (j = i)) as [->|Hne].
      * left. rewrite Nat.sub_diag in Hg'. injection Hg' as ->.
        rewrite Hp. apply list_elem_of_here.
      * right. exists g'. split; [lia|]. split; [|exact Hp].
        replace (j - i)%nat with (S (j - S i)) in Hg' by lia. exact Hg'.
Qed.

Lemma hold_out_last_keeps_groups_together :
  keeps_groups_together Cases.hold_out_last.
Proof.
  intros test_size random_state groups inds i j g Hrun Hi Hj Hgi Hgj.
  unfold Cases.hold_out_last in Hrun.
  destruct (last groups) as [held|]; [|discriminate].
  destruct (Nat.eqb _ 0); [discriminate|]. injection Hrun as <-.
  cbn [fst snd] in Hi, Hj.
  apply positions_spec in Hi as (gi & _ & Hi & Hpi).
  apply positions_spec in Hj as (gj & _ & Hj & Hpj).
  rewrite Nat.sub_0_r in Hi, Hj.
  assert (gi = g) as -> by congruence. assert (gj = g) as -> by congruence.
  apply String.eqb_eq in Hpj as ->.
  rewrite String.eqb_refl in Hpi. discriminate.
Qed.

Lemma hold_out_last_places_every_position :
  places_every_position Cases.hold_out_last.
Proof.
  intros test_size random_state groups inds i Hrun Hi.
  unfold Cases.hold_out_last in Hrun.
  destruct (last groups) as [held|]; [|discriminate].
  destruct (Nat.eqb _ 0); [discriminate|]. injection Hrun as <-.
  cbn [fst snd]. rewrite !positions_spec.
  destruct (lookup_lt_is_Some_2 groups i Hi) as [g Hg].
  destruct (String.eqb g held) eqn:Heq.
  - right. exists g. rewrite Nat.sub_0_r. split; [lia|]. split; [exact Hg|].
    apply String.eqb_eq in Heq as ->. apply String.eqb_refl.
  - left. exists g. rewrite Nat.sub_0_r. split; [lia|]. split; [exact Hg|].
    now rewrite Heq.
Qed.

Lemma cells_split :
  stratified_group_shuffle_split fst snd Cases.hold_out_last Cases.cells
    half 42
  = Returns ([(Some "flu"%string, "c2"%string);
              (Some "cmv"%string, "c3"%string);
              (None, "c2"%string)],
             [(Some "flu"%string, "c1"%string);
              (Some "flu"%string, "c1"%string)]).
Proof. vm_compute. reflexivity. Qed.

(** The clonotype c1 is held out with both of its cells. *)
Lemma stratified_group_shuffle_split_no_leakage_witness :
  snd ((Some "flu", "c2") : Cases.cell)%string
  <> snd ((Some "flu", "c1") : Cases.cell)%string.
Proof.
  refine (stratified_group_shuffle_split_no_leakage fst snd
            Cases.hold_out_last Cases.cells half 42 _ _
            hold_out_last_keeps_groups_together cells_split
            (Some "flu", "c2")%string (Some "flu", "c1")%string _ _).
  - apply list_elem_of_here.
  - apply list_elem_of_here.
Defined.

(** The cell without a label whose clonotype c2 also occurs under a label
    is returned; the one of clonotype c4 is in neither frame. *)
Lemma stratified_group_shuffle_split_places_labelled_groups_witness :
  (((None, "c2") : Cases.cell)%string
     ∈ [(Some "flu"%string, "c2"%string); (Some "cmv"%string, "c3"%string);
        ((None, "c2"%string) : Cases.cell)]
   \/ ((None, "c2") : Cases.cell)%string
        ∈ [(Some "flu"%string, "c1"%string);
           ((Some "flu"%string, "c1"%string) : Cases.cell)])
  /\ ~ (((None, "c4") : Cases.cell)%string
          ∈ [(Some "flu"%string, "c2"%string);
             (Some "cmv"%string, "c3"%string);
             ((None, "c2"%string) : Cases.cell)]
        \/ ((None, "c4") : Cases.cell)%string
             ∈ [(Some "flu"%string, "c1"%string);
                ((Some "flu"%string, "c1"%string) : Cases.cell)]).
Proof.
  pose proof (stratified_group_shuffle_split_places_labelled_groups fst snd
                Cases.hold_out_last Cases.cells half 42 _ _
                hold_out_last_places_every_position cells_split) as H.
  split.
  - apply (H (None, "c2")%string). split.
    + do 5 apply list_elem_of_further. apply list_elem_of_here.
    + exists (Some "flu", "c2")%string. split; [|split].
      * apply list_elem_of_further, list_elem_of_here.
      * now eexists.
      * reflexivity.
  - intros Hin. apply (H (None, "c4")%string) in Hin
      as (_ & r' & Hr' & [label Hlabel] & Hgroup).
    unfold Cases.cells in Hr'.
    repeat (apply elem_of_cons in Hr' as [->|Hr']; [discriminate|]).
    now apply elem_of_nil in Hr'.
Defined.

(** One cell per label: the cells of clonotype c1 train, with or without
    a label; the cell of clonotype c5 has no label and is dropped. *)
Lemma stratified_group_shuffle_split_single_rows_witness :
  stratified_group_shuffle_split fst snd Cases.hold_out_last
    Cases.one_per_label half 42
  = Returns ([(Some "flu"%string, "c1"%string);
              (Some "cmv"%string, "c1"%string);
              (None, "c1"%string)], []).
Proof.
  refine (eq_trans
            (proj1 (stratified_group_shuffle_split_single_rows fst snd
                      Cases.hold_out_last Cases.one_per_label half 42 _)) _).
  - apply NoDup_ListNoDup. repeat constructor; cbn; intuition discriminate.
  - vm_compute. reflexivity.
Defined.

End SplitProps.
